(** * dnsprobe: per-phase DNS latency probe and benchmark aggregation

    A shallow embedding of the Go package [dnsprobe] (probe engine,
    serial and concurrent aggregators, server normalisation and the
    random probe-name generator), with the properties stated for it.

    Conventions.
    - Go [int] and [time.Duration] are 64-bit signed integers: they are
      embedded as [Z], with the wrap-around of [+] written [wrap64] and
      Go's truncating [/] written [Z.quot].
    - Go strings are byte strings: they are embedded as [string], one
      [ascii] per byte.
    - A Go function returning [(T, error)] returns [error + T] here
      ([inl] is the error, [inr] the value).
    - What the package asks of its environment (the clock, the network,
      the DNS codec, the entropy source) is explicit state: a [World]
      for the probe engine, an [Entropy] supply for the generator. *)

From Stdlib Require Import ZArith List String Ascii Bool Lia Permutation.
From Stdlib Require Import QArith Qround.
Import ListNotations.

Local Open Scope string_scope.
Local Open Scope Z_scope.

(** ** Errors *)

Inductive error : Type :=
| AddrError (Err Addr : string)         (* net.AddrError, from SplitHostPort *)
| LabelLengthError (n : Z)              (* "label length must be 1..63, got %d" *)
| EntropyError                          (* the error of crypto/rand.Read *)
| PackError (msg : string)              (* the error of dns.Msg.Pack *)
| UnpackError (msg : string)            (* the error of dns.Msg.Unpack *)
| OpError (op msg : string)             (* net.OpError of dial, write or read *)
| TimeoutError (op : string).           (* net.OpError whose Timeout() is true *)

(** ** Machine integers *)

Definition maxInt64 : Z := 2 ^ 63 - 1.
Definition minInt64 : Z := - 2 ^ 63.

(** Two's complement wrap-around of a 64-bit signed result. *)
Definition wrap64 (z : Z) : Z := (z + 2 ^ 63) mod 2 ^ 64 - 2 ^ 63.

Definition in_int64 (z : Z) : Prop := minInt64 <= z <= maxInt64.

(** ** Byte strings *)

Module Strings.

(** [bytealg.IndexByteString]: first position of [c], if any. *)
Fixpoint IndexByteString (s : string) (c : ascii) : option nat :=
  match s with
  | EmptyString => None
  | String a s' =>
      if Ascii.eqb a c then Some O
      else option_map S (IndexByteString s' c)
  end.

(** [bytealg.LastIndexByteString]: last position of [c], if any. *)
Fixpoint LastIndexByteString (s : string) (c : ascii) : option nat :=
  match s with
  | EmptyString => None
  | String a s' =>
      match LastIndexByteString s' c with
      | Some i => Some (S i)
      | None => if Ascii.eqb a c then Some O else None
      end
  end.

(** [strings.Contains]. *)
Fixpoint Contains (s substr : string) : bool :=
  String.prefix substr s ||
  match s with
  | EmptyString => false
  | String _ s' => Contains s' substr
  end.

(** The slice expression [s[lo:hi]]. *)
Definition slice (s : string) (lo hi : nat) : string :=
  String.substring lo (hi - lo) s.

(** The slice expression [s[lo:]]. *)
Definition slice_from (s : string) (lo : nat) : string :=
  String.substring lo (String.length s - lo) s.

Definition has_byte (s : string) (c : ascii) : bool :=
  match IndexByteString s c with Some _ => true | None => false end.

End Strings.

(** ** Package net: host and port *)

Module Net.
Import Strings.

Definition missingPort : string := "missing port in address".
Definition tooManyColons : string := "too many colons in address".

(** [net.SplitHostPort]. *)
Definition SplitHostPort (hostport : string) : error + (string * string) :=
  let addrErr (why : string) : error + (string * string) :=
    inl (AddrError why hostport) in
  match LastIndexByteString hostport ":" with
  | None => addrErr missingPort
  | Some i =>
      let finish (host : string) (j k : nat) :=
        if has_byte (slice_from hostport j) "[" then
          addrErr "unexpected '[' in address"
        else if has_byte (slice_from hostport k) "]" then
          addrErr "unexpected ']' in address"
        else inr (host, slice_from hostport (S i)) in
      match String.get 0 hostport with
      | Some "["%char =>
          match IndexByteString hostport "]" with
          | None => addrErr "missing ']' in address"
          | Some e =>
              if Nat.eqb (S e) (String.length hostport) then
                addrErr missingPort
              else if Nat.eqb (S e) i then
                finish (slice hostport 1 e) 1%nat (S e)
              else
                match String.get (S e) hostport with
                | Some ":"%char => addrErr tooManyColons
                | _ => addrErr missingPort
                end
          end
      | _ =>
          let host := slice hostport 0 i in
          if has_byte host ":" then addrErr tooManyColons
          else finish host 0%nat 0%nat
      end
  end.

(** [net.JoinHostPort]: a host with a colon is taken for a literal
    IPv6 address and bracketed. *)
Definition JoinHostPort (host port : string) : string :=
  if has_byte host ":" then "[" ++ host ++ "]:" ++ port
  else host ++ ":" ++ port.

End Net.

(** ** normalizeServer *)

Definition normalizeServer (s : string) : string :=
  if Strings.Contains s ":" then
    match Net.SplitHostPort s with
    | inr _ => s
    | inl _ => Net.JoinHostPort s "53"
    end
  else Net.JoinHostPort s "53".

(** ** Data model *)

Record Answer : Type := mkAnswer { Value : string; TTL : Z }.

Record Flags : Type := mkFlags {
  QR : bool; AA : bool; TC : bool; RD : bool; RA : bool; AD : bool; CD : bool
}.

Record Timings : Type := mkTimings {
  Total : Z; Dial : Z; Pack : Z; Write : Z; Read : Z; Unpack : Z;
  RTTApprox : Z
}.

(** The fields [Flags] and [Timings] of the Go struct are
    [ResultFlags] and [ResultTimings] here (a projection cannot share
    the name of its type). *)
Record Result : Type := mkResult {
  Server : string;
  Network : string;
  LocalAddr : string;
  RemoteAddr : string;
  Timeout : Z;
  QName : string;
  RCode : string;
  MsgID : Z;
  ResultFlags : Flags;
  AnswerCount : Z;
  NSCount : Z;
  ExtraCount : Z;
  QuerySizeBytes : Z;
  ResponseSizeBytes : Z;
  Answers : list Answer;
  ResultTimings : Timings
}.

Record Benchmark : Type := mkBenchmark {
  Attempts : Z; Success : Z; Fail : Z; Avg : Timings
}.

(** [Timings{}], the zero value. *)
Definition zeroTimings : Timings := mkTimings 0 0 0 0 0 0 0.

(** ** The DNS codec (github.com/miekg/dns), as far as the probe uses it *)

Module Dns.

(** A resource record: an address record with its rendered address,
    or a record of another type. *)
Inductive RR : Type :=
| A (addr : string) (ttl : Z)
| Other (rrtype : Z) (ttl : Z).

Record Msg : Type := mkMsg {
  Id : Z;
  Response : bool;
  Authoritative : bool;
  Truncated : bool;
  RecursionDesired : bool;
  RecursionAvailable : bool;
  AuthenticatedData : bool;
  CheckingDisabled : bool;
  Rcode : Z;
  Question : list (string * Z);
  Answer : list RR;
  Ns : list RR;
  Extra : list RR
}.

Definition TypeA : Z := 1.

(** [new(dns.Msg)] followed by [SetQuestion(name, qtype)], with the
    identifier [id] drawn by the library, then the two assignments of
    the probe: [RecursionDesired = true], [CheckingDisabled = false]. *)
Definition query (name : string) (qtype id : Z) : Msg :=
  mkMsg id false false false true false false false 0
        [(name, qtype)] [] [] [].

(** The functions of the library the probe calls. *)
Record Codec : Type := mkCodec {
  Fqdn : string -> string;
  Pack : Msg -> error + string;
  Unpack : string -> error + Msg;
  RcodeToString : Z -> string
}.

End Dns.

(** ** The world of a probe: clock, network, call trace *)

(** Calls to the network API, in the order they are made. *)
Inductive Event : Type :=
| EvDial (network address : string)
| EvSetDeadline (t : Z)
| EvWrite (wire : string)
| EvRead
| EvClose.

(** What the environment answers to the calls of one probe: how long
    each operation takes on the monotonic clock (nanoseconds) and what
    the network does.  Time passes inside the five timed operations
    only; the statements between them are instantaneous. *)
Record Env : Type := mkEnv {
  msg_id : Z;
  pack_lat : Z;
  dial_lat : Z;
  dial_res : error + (string * string);   (* local and remote address *)
  write_lat : Z;
  write_res : option error;
  read_lat : Z;
  read_res : error + string;              (* the datagram received *)
  unpack_lat : Z
}.

Record World : Type := mkWorld {
  now : Z;                 (* monotonic clock reading, ns *)
  trace : list Event;      (* network calls made so far, latest last *)
  calls : nat;             (* probes started so far *)
  env : nat -> Env         (* the environment of the i-th probe *)
}.

(** A context is the instant at which it is done (deadline or
    cancellation), if any; [context.Background()] is [None]. *)
Definition Context : Type := option Z.

Record Conn : Type := mkConn {
  conn_local : string;
  conn_remote : string;
  conn_deadline : option Z
}.

Definition elapse (d : Z) (w : World) : World :=
  mkWorld (now w + d) (trace w) (calls w) (env w).

Definition advance_to (t : Z) (w : World) : World :=
  mkWorld (Z.max (now w) t) (trace w) (calls w) (env w).

Definition emit (ev : Event) (w : World) : World :=
  mkWorld (now w) (trace w ++ [ev]) (calls w) (env w).

Definition next_call (w : World) : World :=
  mkWorld (now w) (trace w) (S (calls w)) (env w).

(** A [time.Duration] saturates when a difference of instants does
    not fit ([Time.Sub]). *)
Definition sat64 (z : Z) : Z := Z.max minInt64 (Z.min maxInt64 z).

(** [time.Since(start)]. *)
Definition Since (start : Z) (w : World) : Z := sat64 (now w - start).

Definition min_deadline (a b : option Z) : option Z :=
  match a, b with
  | None, d | d, None => d
  | Some x, Some y => Some (Z.min x y)
  end.

(** An operation taking [lat] on the clock under deadline [dl]: it
    completes when it ends strictly before the deadline, otherwise it
    is abandoned at the deadline with a timeout. *)
Definition under_deadline {T : Type} (op : string) (dl : option Z) (lat : Z)
    (res : error + T) (w : World) : (error + T) * World :=
  match dl with
  | None => (res, elapse lat w)
  | Some d =>
      if now w + lat <? d then (res, elapse lat w)
      else (inl (TimeoutError op), advance_to d w)
  end.

(** [net.Dialer{Timeout: timeout}.DialContext(ctx, network, address)]:
    a zero [Timeout] is no timeout; otherwise the dial must complete
    before [now + timeout], and in any case before the context is
    done. *)
Definition DialContext (timeout : Z) (ctx : Context) (network address : string)
    (e : Env) (w : World) : (error + Conn) * World :=
  let dl := min_deadline
              (if timeout =? 0 then None else Some (now w + timeout)) ctx in
  let res := match dial_res e with
             | inl err => inl err
             | inr (l, r) => inr (mkConn l r None)
             end in
  under_deadline "dial" dl (dial_lat e) res (emit (EvDial network address) w).

(** [conn.SetDeadline(t)] on the open connection. *)
Definition SetDeadline (c : Conn) (t : Z) (w : World) : Conn * World :=
  (mkConn (conn_local c) (conn_remote c) (Some t), emit (EvSetDeadline t) w).

(** [conn.Write(wire)]: a datagram is written whole. *)
Definition conn_Write (c : Conn) (wire : string) (e : Env) (w : World)
    : (error + Z) * World :=
  let res := match write_res e with
             | Some err => inl err
             | None => inr (Z.of_nat (String.length wire))
             end in
  under_deadline "write" (conn_deadline c) (write_lat e) res
                 (emit (EvWrite wire) w).

(** [conn.Read(buf)] with [len(buf) = size]: the bytes stored in [buf],
    [buf[:nr]]. *)
Definition conn_Read (c : Conn) (size : Z) (e : Env) (w : World)
    : (error + string) * World :=
  let res := match read_res e with
             | inl err => inl err
             | inr dgram => inr (String.substring 0 (Z.to_nat size) dgram)
             end in
  under_deadline "read" (conn_deadline c) (read_lat e) res (emit EvRead w).

Definition conn_Close (c : Conn) (w : World) : World := emit EvClose w.

(** ** The probe engine *)

Section Probe.

Variable codec : Dns.Codec.

(** The answer list of a result: the address records of the answer
    section, in order. *)
Fixpoint address_answers (rrs : list Dns.RR) : list Answer :=
  match rrs with
  | [] => []
  | Dns.A addr ttl :: rest => mkAnswer addr ttl :: address_answers rest
  | Dns.Other _ _ :: rest => address_answers rest
  end.

Definition len {T : Type} (l : list T) : Z := Z.of_nat (List.length l).

(** [ProbeA], from the write on: the part of the function that runs
    with [conn.Close()] deferred. *)
Definition exchange (server network qname : string) (timeout : Z)
    (e : Env) (startTotal packDur dialDur : Z) (wire : string)
    (conn : Conn) (w : World) : (error + Result) * World :=
  let '(conn, w) := SetDeadline conn (now w + timeout) w in
  let local := conn_local conn in
  let remote := conn_remote conn in
  let startWrite := now w in
  let '(written, w) := conn_Write conn wire e w in
  let writeDur := Since startWrite w in
  match written with
  | inl err => (inl err, w)
  | inr nw =>
      let startRead := now w in
      let '(got, w) := conn_Read conn 65535 e w in
      let readDur := Since startRead w in
      match got with
      | inl err => (inl err, w)
      | inr received =>
          let nr := Z.of_nat (String.length received) in
          let startUnpack := now w in
          let unpacked := Dns.Unpack codec received in
          let w := elapse (unpack_lat e) w in
          match unpacked with
          | inl err => (inl err, w)
          | inr resp =>
              let unpackDur := Since startUnpack w in
              let totalDur := Since startTotal w in
              (inr (mkResult
                      server network local remote timeout qname
                      (Dns.RcodeToString codec (Dns.Rcode resp))
                      (Dns.Id resp)
                      (mkFlags (Dns.Response resp)
                               (Dns.Authoritative resp)
                               (Dns.Truncated resp)
                               (Dns.RecursionDesired resp)
                               (Dns.RecursionAvailable resp)
                               (Dns.AuthenticatedData resp)
                               (Dns.CheckingDisabled resp))
                      (len (Dns.Answer resp))
                      (len (Dns.Ns resp))
                      (len (Dns.Extra resp))
                      nw nr
                      (address_answers (Dns.Answer resp))
                      (mkTimings totalDur dialDur packDur writeDur readDur
                                 unpackDur (wrap64 (writeDur + readDur)))),
               w)
          end
      end
  end.

Definition ProbeA (ctx : Context) (server qname : string) (timeout : Z)
    (w : World) : (error + Result) * World :=
  let server := normalizeServer server in
  let e := env w (calls w) in
  let w := next_call w in
  let msg := Dns.query (Dns.Fqdn codec qname) Dns.TypeA (msg_id e) in
  let startTotal := now w in
  let startPack := now w in
  let packed := Dns.Pack codec msg in
  let w := elapse (pack_lat e) w in
  let packDur := Since startPack w in
  match packed with
  | inl err => (inl err, w)
  | inr wire =>
      let network := "udp" in
      let startDial := now w in
      let '(dialed, w) := DialContext timeout ctx network server e w in
      let dialDur := Since startDial w in
      match dialed with
      | inl err => (inl err, w)
      | inr conn =>
          let '(r, w) := exchange server network qname timeout e
                                  startTotal packDur dialDur wire conn w in
          (r, conn_Close conn w)
      end
  end.

(** ** The aggregator *)

Definition add (a b : Timings) : Timings :=
  mkTimings (wrap64 (Total a + Total b))
            (wrap64 (Dial a + Dial b))
            (wrap64 (Pack a + Pack b))
            (wrap64 (Write a + Write b))
            (wrap64 (Read a + Read b))
            (wrap64 (Unpack a + Unpack b))
            (wrap64 (RTTApprox a + RTTApprox b)).

Definition avg (s : Timings) (n : Z) : Timings :=
  if n <=? 0 then zeroTimings
  else
    let den := n in
    mkTimings (Z.quot (Total s) den)
              (Z.quot (Dial s) den)
              (Z.quot (Pack s) den)
              (Z.quot (Write s) den)
              (Z.quot (Read s) den)
              (Z.quot (Unpack s) den)
              (Z.quot (RTTApprox s) den).

(** The accumulators of a reduction: [sum], [ok], [fail]. *)
Record Acc : Type := mkAcc { acc_sum : Timings; acc_ok : Z; acc_fail : Z }.

Definition acc0 : Acc := mkAcc zeroTimings 0 0.

(** The loop of [BenchmarkSerial], with [k] iterations left. *)
Fixpoint serial_loop (ctx : Context) (server qname : string) (timeout : Z)
    (k : nat) (a : Acc) (w : World) : Acc * World :=
  match k with
  | O => (a, w)
  | S k' =>
      let '(r, w) := ProbeA ctx server qname timeout w in
      match r with
      | inl _ =>
          serial_loop ctx server qname timeout k'
            (mkAcc (acc_sum a) (acc_ok a) (acc_fail a + 1)) w
      | inr r =>
          serial_loop ctx server qname timeout k'
            (mkAcc (add (acc_sum a) (ResultTimings r)) (acc_ok a + 1)
                   (acc_fail a)) w
      end
  end.

(** [for i := 0; i < n; i++] runs [max n 0] times. *)
Definition BenchmarkSerial (ctx : Context) (server qname : string)
    (timeout n : Z) (w : World) : Benchmark * World :=
  let '(a, w) := serial_loop ctx server qname timeout (Z.to_nat n) acc0 w in
  (mkBenchmark n (acc_ok a) (acc_fail a) (avg (acc_sum a) (acc_ok a)), w).

(** The value a goroutine of [BenchmarkConcurrent] sends. *)
Record one : Type := mkOne { t : Timings; err : option error }.

(** The body of a goroutine, run in the world it sees. *)
Definition goroutine (ctx : Context) (server qname : string) (timeout : Z)
    (w : World) : one :=
  match fst (ProbeA ctx server qname timeout w) with
  | inl e => mkOne zeroTimings (Some e)
  | inr r => mkOne (ResultTimings r) None
  end.

(** The loop [for v := range ch]. *)
Fixpoint drain (ch : list one) (a : Acc) : Acc :=
  match ch with
  | [] => a
  | v :: rest =>
      match err v with
      | Some _ => drain rest (mkAcc (acc_sum a) (acc_ok a) (acc_fail a + 1))
      | None =>
          drain rest (mkAcc (add (acc_sum a) (t v)) (acc_ok a + 1)
                            (acc_fail a))
      end
  end.

(** [BenchmarkConcurrent].  Goroutine [i] runs its probe in the world
    [worlds i] (own socket, own clock readings); [sched] lists the
    goroutines in the order their sends reach the channel.  The
    channel holds [n] values, so no send blocks, and it is drained
    only after [wg.Wait()]: the reduction sees the values in the
    order of [sched].  A negative [n] makes [make(chan one, n)]
    panic: no result. *)
Definition BenchmarkConcurrent (ctx : Context) (server qname : string)
    (timeout n : Z) (worlds : nat -> World) (sched : list nat)
    : option Benchmark :=
  if n <? 0 then None
  else
    let ch := map (fun i => goroutine ctx server qname timeout (worlds i))
                  sched in
    let a := drain ch acc0 in
    Some (mkBenchmark n (acc_ok a) (acc_fail a)
                      (avg (acc_sum a) (acc_ok a))).

(** A schedule of [n] goroutines: each sends exactly once. *)
Definition schedule_of (n : Z) (sched : list nat) : Prop :=
  Permutation sched (seq 0 (Z.to_nat n)).

End Probe.

(** ** The random probe-name generator *)

(** The bytes the system entropy source has yet to deliver.  A read
    of more bytes than it holds is the failure of [rand.Read]. *)
Definition Entropy : Type := list ascii.

Definition rand_Read (k : nat) (r : Entropy) : (error + list ascii) * Entropy :=
  if (k <=? List.length r)%nat then (inr (firstn k r), skipn k r)
  else (inl EntropyError, r).

Definition mid : string := "abcdefghijklmnopqrstuvwxyz0123456789-".
Definition edge : string := "abcdefghijklmnopqrstuvwxyz0123456789".

(** [charset[int(b) % len(charset)]]. *)
Definition pick (charset : string) (b : ascii) : ascii :=
  match String.get (nat_of_ascii b mod String.length charset) charset with
  | Some c => c
  | None => zero
  end.

(** [fillFromCharset(dst, charset)]: the error, if any, and the
    contents of [dst] on return. *)
Definition fillFromCharset (dst : list ascii) (charset : string) (r : Entropy)
    : (option error * list ascii) * Entropy :=
  if (List.length dst =? 0)%nat then (None, dst, r)
  else
    match rand_Read (List.length dst) r with
    | (inl e, r) => (Some e, dst, r)
    | (inr b, r) => (None, map (pick charset) b, r)
    end.

(** [fillFromCharset(out[lo:hi], charset)]: the slice shares the
    bytes of [out]. *)
Definition fill_slice (out : list ascii) (lo hi : nat) (charset : string)
    (r : Entropy) : (option error * list ascii) * Entropy :=
  let '(e, dst, r) := fillFromCharset (firstn (hi - lo) (skipn lo out))
                                      charset r in
  (e, (firstn lo out ++ dst ++ skipn hi out)%list, r).

Definition randomLabel (n : Z) (r : Entropy) : (error + string) * Entropy :=
  if (n <? 1) || (n >? 63) then (inl (LabelLengthError n), r)
  else
    let k := Z.to_nat n in
    let out := repeat zero k in
    match fill_slice out 0 1 edge r with
    | (Some e, _, r) => (inl e, r)
    | (None, out, r) =>
        let '(e2, out, r) :=
          if n >? 2 then fill_slice out 1 (k - 1) mid r else (None, out, r) in
        match e2 with
        | Some e => (inl e, r)
        | None =>
            let '(e3, out, r) :=
              if n >? 1 then fill_slice out (k - 1) k edge r
              else (None, out, r) in
            match e3 with
            | Some e => (inl e, r)
            | None => (inr (string_of_list_ascii out), r)
            end
        end
    end.

Definition RandomDomain128WithCOM (r : Entropy) : (error + string) * Entropy :=
  match randomLabel 60 r with
  | (inl e, r) => (inl e, r)
  | (inr l1, r) =>
      match randomLabel 63 r with
      | (inl e, r) => (inl e, r)
      | (inr l2, r) => (inr (l1 ++ "." ++ l2 ++ ".com")%string, r)
      end
  end.

(** *** The alphabets, by character class *)

Definition is_lower (c : ascii) : bool :=
  (("a" <=? c) && (c <=? "z"))%char.

Definition is_digit (c : ascii) : bool :=
  (("0" <=? c) && (c <=? "9"))%char.

(** [[a-z0-9]] *)
Definition is_edge_char (c : ascii) : bool := is_lower c || is_digit c.

(** [[a-z0-9-]] *)
Definition is_mid_char (c : ascii) : bool :=
  is_edge_char c || Ascii.eqb c "-".

(** A label: first and last character in [[a-z0-9]], every character
    between them in [[a-z0-9-]]. *)
Definition label_ok (s : string) : bool :=
  match list_ascii_of_string s with
  | [] => false
  | c :: rest =>
      is_edge_char c && is_edge_char (last rest c) &&
      forallb is_mid_char (removelast rest)
  end.

(** The characters a successful fill can store. *)
Definition drawn_from (charset : string) (c : ascii) : Prop :=
  exists b, c = pick charset b.

(** A supply of 123 bytes: 5, 42, 79, ... (steps of 37, modulo 256). *)
Definition demo_entropy : Entropy :=
  map (fun i => ascii_of_nat (i * 37 + 5)) (seq 0 123).

Definition demo_name : string :=
  "fffffffiiiiiiilllllllooooooorrrrrrruuuuuuuxxxxxxx00000003336.7336666666999999bbbbbbbeeeeeeehhhhhhhkkkkkkknnnnnnnqqqqqqqttttx.com".

(** ** Vocabulary of the statements *)

(** The monotonic clock never runs backwards: no operation of a probe
    takes negative time. *)
Definition clock_monotonic (e : Env) : Prop :=
  0 <= pack_lat e /\ 0 <= dial_lat e /\ 0 <= write_lat e /\
  0 <= read_lat e /\ 0 <= unpack_lat e.

(** The fields of [Timings]. *)
Inductive Phase : Type :=
| PTotal | PDial | PPack | PWrite | PRead | PUnpack | PRTTApprox.

Definition phase (p : Phase) (x : Timings) : Z :=
  match p with
  | PTotal => Total x
  | PDial => Dial x
  | PPack => Pack x
  | PWrite => Write x
  | PRead => Read x
  | PUnpack => Unpack x
  | PRTTApprox => RTTApprox x
  end.

Definition sumZ (l : list Z) : Z := fold_right Z.add 0 l.

(** The arithmetic mean of a list of durations, as a rational. *)
Definition mean (l : list Z) : Q := (inject_Z (sumZ l) / inject_Z (len l))%Q.

(** The outcomes of the [k] probes a serial run makes from world [w],
    in order. *)
Fixpoint serial_outcomes (codec : Dns.Codec) (ctx : Context)
    (server qname : string) (timeout : Z) (k : nat) (w : World)
    : list (error + Result) :=
  match k with
  | O => []
  | S k' =>
      let '(r, w) := ProbeA codec ctx server qname timeout w in
      r :: serial_outcomes codec ctx server qname timeout k' w
  end.

(** The outcomes of the goroutines of a concurrent run, in the order
    of the schedule. *)
Definition concurrent_outcomes (codec : Dns.Codec) (ctx : Context)
    (server qname : string) (timeout : Z) (worlds : nat -> World)
    (sched : list nat) : list (error + Result) :=
  map (fun i => fst (ProbeA codec ctx server qname timeout (worlds i))) sched.

(** The timings of the successful outcomes, in order. *)
Fixpoint successes (outs : list (error + Result)) : list Timings :=
  match outs with
  | [] => []
  | inl _ :: rest => successes rest
  | inr r :: rest => ResultTimings r :: successes rest
  end.

Fixpoint failures (outs : list (error + Result)) : list error :=
  match outs with
  | [] => []
  | inl e :: rest => e :: failures rest
  | inr _ :: rest => failures rest
  end.

(** What a goroutine sends for an outcome. *)
Definition sent (o : error + Result) : one :=
  match o with
  | inl e => mkOne zeroTimings (Some e)
  | inr r => mkOne (ResultTimings r) None
  end.

(** The events a probe appends to the trace. *)
Definition new_events (w w' : World) : list Event :=
  skipn (List.length (trace w)) (trace w').

(** ** A codec and some environments to run the model on *)

Definition ends_with_dot (s : string) : bool :=
  match rev (list_ascii_of_string s) with
  | "."%char :: _ => true
  | _ => false
  end.

(** A stand-in for the codec: it refuses a name with an empty label,
    and decodes every non-empty datagram to one address answer. *)
Definition demo_codec : Dns.Codec :=
  Dns.mkCodec
    (fun s => if ends_with_dot s then s else (s ++ ".")%string)
    (fun m =>
       match Dns.Question m with
       | [(name, _)] =>
           if Strings.Contains name ".." then inl (PackError "bad rdata")
           else inr ("query:" ++ name)%string
       | _ => inl (PackError "bad question")
       end)
    (fun wire =>
       if (String.length wire =? 0)%nat
       then inl (UnpackError "overflow unpacking")
       else inr (Dns.mkMsg 1 true false false true true false false 0
                           [("example.org."%string, 1)]
                           [Dns.A "192.0.2.80" 300] [] []))
    (fun rc =>
       match rc with
       | 0 => "NOERROR" | 2 => "SERVFAIL" | 3 => "NXDOMAIN" | _ => ""
       end%string).

Definition ms : Z := 1000000.

(** A server that answers: the five operations take the given times. *)
Definition answering (pack dial write read unpack : Z) : Env :=
  mkEnv 1 pack dial (inr ("192.0.2.10:40000", "192.0.2.53:53")%string)
        write None read (inr "response"%string) unpack.

(** A server that sends nothing for ten seconds. *)
Definition silent : Env := answering 0 0 0 (10000 * ms) 0.

(** The world that starts at instant 0 and answers the i-th probe with
    the i-th environment of the list, and with silence afterwards. *)
Definition world_of (envs : list Env) : World :=
  mkWorld 0 [] 0 (fun i => nth i envs silent).

(** Three probes whose answers come faster and faster. *)
Definition caching_world : World :=
  world_of [answering 0 0 0 (1000 * ms) 0;
            answering 0 0 0 (500 * ms) 0;
            answering 0 0 0 (250 * ms) 0].

(** A probe whose dial and whose read each take 600 ms. *)
Definition slow_world : World :=
  world_of [answering 0 (600 * ms) 0 (600 * ms) 0].

(** What the first probe of [caching_world] returns. *)
Definition demo_result : Result :=
  mkResult "192.0.2.53:53" "udp" "192.0.2.10:40000" "192.0.2.53:53"
           (3000 * ms) "example.org" "NOERROR" 1
           (mkFlags true false false true true false false)
           1 0 0 18 8 [mkAnswer "192.0.2.80" 300]
           (mkTimings (1000 * ms) 0 0 0 (1000 * ms) 0 (1000 * ms)).



(** ** Vocabulary of the further properties *)

(** The largest datagram the read buffer of a probe holds. *)
Definition read_buffer_size : Z := 65535.


(** The world goroutine [i] of a concurrent run sees when it is given
    the environment the [i]-th probe of a serial run from [w] has. *)
Definition goroutine_world (w : World) (i : nat) : World :=
  mkWorld (now w) (trace w) (calls w + i) (env w).

(** Two probes: one spends 1 ns writing, the other 1 ns reading. *)
Definition uneven_world : World :=
  world_of [answering 0 0 1 0 0; answering 0 0 0 1 0].

(** The outcome of a probe under [context.Background()], read off the
    answers of the environment alone: the clock reading at which the
    probe starts and the calls made before it play no part. *)
Definition probe_outcome (codec : Dns.Codec) (server qname : string)
    (timeout : Z) (e : Env) : error + Result :=
  match Dns.Pack codec (Dns.query (Dns.Fqdn codec qname) Dns.TypeA (msg_id e))
  with
  | inl err => inl err
  | inr wire =>
      if negb (timeout =? 0) && negb (dial_lat e <? timeout)
      then inl (TimeoutError "dial")
      else
        match dial_res e with
        | inl err => inl err
        | inr (l, rem) =>
            if negb (write_lat e <? timeout) then inl (TimeoutError "write")
            else
              match write_res e with
              | Some err => inl err
              | None =>
                  if negb (write_lat e + read_lat e <? timeout)
                  then inl (TimeoutError "read")
                  else
                    match read_res e with
                    | inl err => inl err
                    | inr dgram =>
                        let got :=
                          String.substring 0 (Z.to_nat 65535) dgram in
                        match Dns.Unpack codec got with
                        | inl err => inl err
                        | inr resp =>
                            inr (mkResult
                                   (normalizeServer server) "udp" l rem
                                   timeout qname
                                   (Dns.RcodeToString codec (Dns.Rcode resp))
                                   (Dns.Id resp)
                                   (mkFlags (Dns.Response resp)
                                      (Dns.Authoritative resp)
                                      (Dns.Truncated resp)
                                      (Dns.RecursionDesired resp)
                                      (Dns.RecursionAvailable resp)
                                      (Dns.AuthenticatedData resp)
                                      (Dns.CheckingDisabled resp))
                                   (len (Dns.Answer resp))
                                   (len (Dns.Ns resp))
                                   (len (Dns.Extra resp))
                                   (Z.of_nat (String.length wire))
                                   (Z.of_nat (String.length got))
                                   (address_answers (Dns.Answer resp))
                                   (mkTimings
                                      (sat64 (pack_lat e + dial_lat e
                                              + write_lat e + read_lat e
                                              + unpack_lat e))
                                      (sat64 (dial_lat e))
                                      (sat64 (pack_lat e))
                                      (sat64 (write_lat e))
                                      (sat64 (read_lat e))
                                      (sat64 (unpack_lat e))
                                      (wrap64 (sat64 (write_lat e)
                                               + sat64 (read_lat e)))))
                        end
                    end
              end
        end
  end.

(** ** LooksLikeServer and the system default resolver *)

(** The number of occurrences of a byte in a string. *)
Fixpoint count_byte (s : string) (c : ascii) : nat :=
  match s with
  | EmptyString => 0%nat
  | String a s' => ((if Ascii.eqb a c then 1 else 0) + count_byte s' c)%nat
  end.

(** A string without square brackets. *)
Definition bracket_free (s : string) : bool :=
  negb (Strings.has_byte s "[") && negb (Strings.has_byte s "]").

Definition splits (s : string) : bool :=
  match Net.SplitHostPort s with
  | inr _ => true
  | inl _ => false
  end.

Section Heuristic.

(** [net.ParseIP], which the heuristic consults: the parsed address,
    if the string is the text of one. *)
Variable ParseIP : string -> option string.

Definition LooksLikeServer (s : string) : bool :=
  let heuristic :=
    match ParseIP s with
    | Some _ => true
    | None =>
        match Net.SplitHostPort (s ++ ":53") with
        | inr (h, p) =>
            if negb (h =? "")%string && negb (p =? "")%string then true
            else false
        | inl _ => false
        end
    end in
  if Strings.Contains s ":" then
    match Net.SplitHostPort s with
    | inr _ => true
    | inl _ => heuristic
    end
  else heuristic.

End Heuristic.

(** What [SystemDefaultDNSServer] reads from the system. *)
Inductive config_error : Type :=
| ConfigFileError (msg : string)      (* the error of ClientConfigFromFile *)
| NoNameservers                       (* "no nameserver entries in /etc/resolv.conf" *)
| UnsupportedPlatform (goos : string). (* "unsupported auto-detection on %s; ..." *)

Record ClientConfig : Type := mkClientConfig {
  Servers : list string;
  Port : string
}.

Record System : Type := mkSystem {
  stat_resolv_conf : bool;                        (* os.Stat succeeded *)
  ClientConfigFromFile : config_error + ClientConfig;
  GOOS : string
}.

Definition SystemDefaultDNSServer (sys : System) : config_error + string :=
  if stat_resolv_conf sys then
    match ClientConfigFromFile sys with
    | inl err => inl err
    | inr cfg =>
        match Servers cfg with
        | [] => inl NoNameservers
        | first :: _ => inr (Net.JoinHostPort first (Port cfg))
        end
    end
  else inl (UnsupportedPlatform (GOOS sys)).

(** A resolver configuration as [/etc/resolv.conf] commonly gives it. *)
Definition demo_system : System :=
  mkSystem true (inr (mkClientConfig ["2001:db8::53"; "192.0.2.53"] "53"))
           "linux".

(** A stand-in for [net.ParseIP] that knows two addresses. *)
Definition demo_ParseIP (s : string) : option string :=
  if (s =? "192.0.2.53")%string || (s =? "::1")%string then Some s else None.

(** ** The byte values and how a charset spreads over them *)

(** The 256 values of a byte. *)
Definition all_bytes : list ascii := map ascii_of_nat (seq 0 256).

(** How many byte values [pick] maps to the character [c]. *)
Definition preimages (charset : string) (c : ascii) : nat :=
  List.length (filter (fun b => Ascii.eqb (pick charset b) c) all_bytes).

(** ** The command: domains to probe, and colours of a comparison *)

Module Cmd.

(** [strings.Split(s, sep)] for a separator of one byte. *)
Fixpoint Split (s : string) (sep : ascii) : list string :=
  match s with
  | EmptyString => [EmptyString]
  | String c s' =>
      if Ascii.eqb c sep then EmptyString :: Split s' sep
      else
        match Split s' sep with
        | piece :: rest => String c piece :: rest
        | [] => [String c EmptyString]
        end
  end.

(** The table [asciiSpace] of package strings. *)
Definition asciiSpace (c : ascii) : bool :=
  match c with
  | "009"%char | "010"%char | "011"%char | "012"%char | "013"%char
  | " "%char => true
  | _ => false
  end.

(** [c >= utf8.RuneSelf]. *)
Definition non_ascii (c : ascii) : bool := (128 <=? nat_of_ascii c)%nat.

Section Trim.

(** The Unicode-aware trims [TrimFunc(s, unicode.IsSpace)] and
    [TrimRightFunc(s, unicode.IsSpace)], which [TrimSpace] falls back
    to when it meets a byte outside ASCII. *)
Variable TrimFunc_IsSpace : string -> string.
Variable TrimRightFunc_IsSpace : string -> string.

(** The first loop of [TrimSpace]: the result when it returns through
    the fall-back, or [s[start:]]. *)
Fixpoint trim_start (s : string) : string + string :=
  match s with
  | EmptyString => inr EmptyString
  | String c s' =>
      if non_ascii c then inl (TrimFunc_IsSpace s)
      else if asciiSpace c then trim_start s'
      else inr s
  end.

(** The second loop, on the bytes of [s[start:]] from the last to the
    first: the result of the fall-back, or the bytes of
    [s[start:stop]], last first. *)
Fixpoint trim_stop (rev_bytes : list ascii) : string + list ascii :=
  match rev_bytes with
  | [] => inr []
  | c :: before =>
      if non_ascii c
      then inl (TrimRightFunc_IsSpace (string_of_list_ascii (rev rev_bytes)))
      else if asciiSpace c then trim_stop before
      else inr rev_bytes
  end.

Definition TrimSpace (s : string) : string :=
  match trim_start s with
  | inl result => result
  | inr rest =>
      match trim_stop (rev (list_ascii_of_string rest)) with
      | inl result => result
      | inr kept => string_of_list_ascii (rev kept)
      end
  end.

(** The errors of the part of the command that chooses the domains. *)
Inductive domains_error : Type :=
| NoValidDomains            (* "--domains provided but no valid domains found after parsing" *)
| GeneratorError (e : error).

(** The loop over the pieces of [--domains]. *)
Fixpoint collect_domains (pieces domains : list string) : list string :=
  match pieces with
  | [] => domains
  | d :: rest =>
      let d := TrimSpace d in
      if (d =? "")%string then collect_domains rest domains
      else collect_domains rest (domains ++ [d])
  end.

(** The domains the command probes, from the flag [--domains]. *)
Definition select_domains (latencyDomains : string) (r : Entropy)
    : (domains_error + list string) * Entropy :=
  if negb (TrimSpace latencyDomains =? "")%string then
    let domains := collect_domains (Split latencyDomains ",") [] in
    if (List.length domains =? 0)%nat then (inl NoValidDomains, r)
    else (inr domains, r)
  else
    match RandomDomain128WithCOM r with
    | (inl e, r) => (inl (GeneratorError e), r)
    | (inr random128, r) =>
        (inr ["google.com"; "earentir.dev"; random128]%string, r)
    end.

End Trim.

(** The colours of package aurora the comparison uses. *)
Inductive Colour : Type := Gray12 | Green | Red.

(** [colorPairLowerBetter]: for each of the two cells, its colour and
    the duration whose text it shows. *)
Definition colorPairLowerBetter (a b : Z) : (Colour * Z) * (Colour * Z) :=
  if a =? b then ((Gray12, a), (Gray12, a))
  else if a <? b then ((Green, a), (Red, b))
  else ((Red, a), (Green, b)).

(** Stand-ins for the Unicode-aware trims: they leave the string. *)
Definition no_unicode_trim (s : string) : string := s.

Definition ascii_only (s : string) : bool :=
  forallb (fun c => negb (non_ascii c)) (list_ascii_of_string s).

Definition all_bytes_in (f : ascii -> bool) (s : string) : bool :=
  forallb f (list_ascii_of_string s).

Definition space_or_comma (c : ascii) : bool :=
  asciiSpace c || Ascii.eqb c ",".

(** A string that neither starts nor ends with an ASCII space. *)
Definition trimmed (s : string) : bool :=
  match list_ascii_of_string s with
  | [] => true
  | c :: rest => negb (asciiSpace c) && negb (asciiSpace (last rest c))
  end.

End Cmd.

(** * Properties *)

(** ** Server normalisation *)

Lemma Contains_colon_has_byte (s : string) :
  Strings.Contains s ":" = Strings.has_byte s ":".
Proof.
  unfold Strings.has_byte.
  induction s as [|a s IH]; [reflexivity|].
  cbn [Strings.Contains Strings.IndexByteString String.prefix].
  destruct (ascii_dec ":" a) as [<-|Hne].
  - destruct s; reflexivity.
  - rewrite IH.
    assert (Ascii.eqb a ":" = false) as ->
      by (apply Ascii.eqb_neq; congruence).
    destruct (Strings.IndexByteString s ":"); reflexivity.
Qed.

Lemma normalizeServer_cases (s : string) :
  (exists hp, Net.SplitHostPort s = inr hp /\ normalizeServer s = s) \/
  (exists e, Net.SplitHostPort s = inl e /\
             normalizeServer s = Net.JoinHostPort s "53").
Proof.
  unfold normalizeServer.
  destruct (Net.SplitHostPort s) as [e|hp] eqn:Hs.
  - right. exists e. split; [reflexivity|].
    destruct (Strings.Contains s ":"); reflexivity.
  - left. exists hp. split; [reflexivity|].
    destruct (Strings.Contains s ":") eqn:Hc; [reflexivity|].
    exfalso. rewrite Contains_colon_has_byte in Hc.
    unfold Net.SplitHostPort in Hs.
    assert (Strings.LastIndexByteString s ":" = None) as Hl.
    { clear Hs. unfold Strings.has_byte in Hc.
      induction s as [|a s IH]; [reflexivity|].
      cbn [Strings.IndexByteString] in Hc.
      cbn [Strings.LastIndexByteString].
      destruct (Ascii.eqb a ":"); [discriminate|].
      destruct (Strings.IndexByteString s ":"); [discriminate|].
      rewrite IH; reflexivity. }
    rewrite Hl in Hs. discriminate.
Qed.



(** ** The random probe-name generator *)

Lemma pick_edge_ok (b : ascii) : is_edge_char (pick edge b) = true.
Proof. destruct b as [[] [] [] [] [] [] [] []]; vm_compute; reflexivity. Qed.

Lemma pick_mid_ok (b : ascii) : is_mid_char (pick mid b) = true.
Proof. destruct b as [[] [] [] [] [] [] [] []]; vm_compute; reflexivity. Qed.

Lemma length_string_of_list_ascii (l : list ascii) :
  String.length (string_of_list_ascii l) = List.length l.
Proof. induction l; cbn; congruence. Qed.


Lemma fill_slice_success out lo hi cs r out' r' :
  (lo < hi <= List.length out)%nat ->
  fill_slice out lo hi cs r = (None, out', r') ->
  exists X,
    out' = (firstn lo out ++ X ++ skipn hi out)%list /\
    List.length X = (hi - lo)%nat /\
    Forall (drawn_from cs) X /\
    r' = skipn (hi - lo) r.
Proof.
  intros Hb. unfold fill_slice, fillFromCharset, rand_Read.
  assert (List.length (firstn (hi - lo) (skipn lo out)) = (hi - lo)%nat) as Hl
    by (rewrite length_firstn, length_skipn; lia).
  rewrite Hl.
  destruct (Nat.eqb_spec (hi - lo) 0); [lia|].
  destruct (hi - lo <=? List.length r)%nat eqn:Hr; [|discriminate].
  apply Nat.leb_le in Hr.
  intros [= <- <-].
  exists (map (pick cs) (firstn (hi - lo) r)). repeat split.
  - rewrite length_map, length_firstn. lia.
  - apply Forall_forall. intros c Hc. apply in_map_iff in Hc.
    destruct Hc as (b & <- & _). exists b. reflexivity.
Qed.

Lemma fill_slice_enough out lo hi cs r :
  (lo < hi <= List.length out)%nat ->
  (hi - lo <= List.length r)%nat ->
  exists out', fill_slice out lo hi cs r = (None, out', skipn (hi - lo) r).
Proof.
  intros Hb Hr. unfold fill_slice, fillFromCharset, rand_Read.
  assert (List.length (firstn (hi - lo) (skipn lo out)) = (hi - lo)%nat) as Hl
    by (rewrite length_firstn, length_skipn; lia).
  rewrite Hl.
  destruct (Nat.eqb_spec (hi - lo) 0); [lia|].
  apply Nat.leb_le in Hr. rewrite Hr. eauto.
Qed.

(** A fill that fails leaves the error of the entropy source. *)
Lemma fill_slice_failure out lo hi cs r e out' r' :
  fill_slice out lo hi cs r = (Some e, out', r') -> e = EntropyError.
Proof.
  unfold fill_slice, fillFromCharset, rand_Read.
  destruct (_ =? 0)%nat; [discriminate|].
  destruct (_ <=? _)%nat; [discriminate|].
  intros [= <- _ _]. reflexivity.
Qed.

Lemma inr_inj {A B : Type} (x y : B) : @inr A B x = inr y -> x = y.
Proof. congruence. Qed.

(** Splits the equation of a successful return without unfolding
    either side. *)
Ltac returned H :=
  apply pair_equal_spec in H; destruct H as [H <-];
  apply (inr_inj _ _) in H; subst.

Lemma label_ok_build (a c : ascii) (X : list ascii) :
  drawn_from edge a -> Forall (drawn_from mid) X -> drawn_from edge c ->
  label_ok (string_of_list_ascii (a :: X ++ [c])) = true.
Proof.
  intros [b ->] HX [b' ->]. unfold label_ok.
  rewrite list_ascii_of_string_of_list_ascii.
  rewrite last_last, removelast_last, !pick_edge_ok. cbn [andb].
  apply forallb_forall. intros x Hx.
  rewrite Forall_forall in HX. destruct (HX x Hx) as [bx ->].
  apply pick_mid_ok.
Qed.

Lemma length_one {T : Type} (X : list T) :
  List.length X = 1%nat -> exists x, X = [x].
Proof. destruct X as [|x [|y X]]; cbn; try discriminate. eauto. Qed.

(** Every label the generator returns has the requested length and
    the shape of a DNS label, and costs one byte of entropy per
    character. *)
Lemma randomLabel_shape (n : Z) (r r' : Entropy) (s : string) :
  randomLabel n r = (inr s, r') ->
  1 <= n <= 63 /\
  String.length s = Z.to_nat n /\
  label_ok s = true /\
  r' = skipn (Z.to_nat n) r.
Proof.
  unfold randomLabel.
  destruct (n <? 1) eqn:H1; [discriminate|].
  destruct (n >? 63) eqn:H63; [discriminate|]. cbn [orb].
  apply Z.ltb_ge in H1. rewrite Z.gtb_ltb in H63. apply Z.ltb_ge in H63.
  set (k := Z.to_nat n). assert (1 <= k <= 63)%nat as Hk by lia.
  assert (List.length (repeat zero k) = k) as Hl0 by apply repeat_length.
  destruct (fill_slice (repeat zero k) 0 1 edge r) as [[[e1|] out1] r1] eqn:F1;
    [discriminate|].
  apply fill_slice_success in F1; [|lia].
  destruct F1 as (X1 & -> & HX1 & HE1 & ->).
  destruct (length_one X1 HX1) as [a ->].
  apply Forall_inv in HE1.
  cbn [firstn app Nat.sub].
  set (out1 := a :: skipn 1 (repeat zero k)).
  assert (List.length out1 = k) as Hl1
    by (subst out1; cbn [List.length]; rewrite length_skipn; lia).
  destruct (n >? 2) eqn:H2.
  - (* three characters or more *)
    rewrite Z.gtb_ltb in H2. apply Z.ltb_lt in H2.
    assert ((n >? 1) = true) as -> by (rewrite Z.gtb_ltb; apply Z.ltb_lt; lia).
    destruct (fill_slice out1 1 (k - 1) mid (skipn 1 r))
      as [[[e2|] out2] r2] eqn:F2; [discriminate|].
    apply fill_slice_success in F2; [|lia].
    destruct F2 as (X2 & -> & HX2 & HE2 & ->).
    set (out2 := (firstn 1 out1 ++ X2 ++ skipn (k - 1) out1)%list).
    assert (List.length out2 = k) as Hl2.
    { subst out2. rewrite !length_app, length_firstn, length_skipn. lia. }
    destruct (fill_slice out2 (k - 1) k edge (skipn (k - 1 - 1) (skipn 1 r)))
      as [[[e3|] out3] r3] eqn:F3; [discriminate|].
    apply fill_slice_success in F3; [|lia].
    destruct F3 as (X3 & -> & HX3 & HE3 & ->).
    replace (k - (k - 1))%nat with 1%nat in * by lia.
    destruct (length_one X3 HX3) as [c ->].
    apply Forall_inv in HE3.
    intros Hret; returned Hret.
    assert ((firstn (k - 1) out2 ++ [c] ++ skipn k out2)%list
            = (a :: X2 ++ [c])%list) as ->.
    { rewrite (skipn_all2 out2) by lia. subst out2.
      change (firstn 1 out1) with [a]. cbn [app].
      change (a :: X2 ++ skipn (k - 1) out1)%list
        with ((a :: X2) ++ skipn (k - 1) out1)%list.
      rewrite firstn_app, (firstn_all2 (a :: X2))
        by (cbn [List.length]; lia).
      replace (k - 1 - List.length (a :: X2))%nat with 0%nat
        by (cbn [List.length]; lia).
      cbn [firstn]. rewrite app_nil_r. reflexivity. }
    repeat split; try lia.
    + rewrite length_string_of_list_ascii. cbn [List.length].
      rewrite length_app. cbn [List.length]. lia.
    + apply label_ok_build; assumption.
    + rewrite !skipn_skipn. f_equal. lia.
  - rewrite Z.gtb_ltb in H2. apply Z.ltb_ge in H2.
    destruct (n >? 1) eqn:H1'.
    + (* two characters *)
      rewrite Z.gtb_ltb in H1'. apply Z.ltb_lt in H1'.
      assert (k = 2%nat) as Hk2 by lia.
      destruct (fill_slice out1 (k - 1) k edge (skipn 1 r))
        as [[[e3|] out3] r3] eqn:F3; [discriminate|].
      apply fill_slice_success in F3; [|lia].
      destruct F3 as (X3 & -> & HX3 & HE3 & ->).
      replace (k - (k - 1))%nat with 1%nat in * by lia.
      destruct (length_one X3 HX3) as [c ->].
      apply Forall_inv in HE3.
      intros Hret; returned Hret.
      rewrite (skipn_all2 out1) by lia. subst out1. rewrite Hk2.
      cbn [Nat.sub firstn app].
      repeat split; try lia.
      * apply (label_ok_build a c []); [assumption|constructor|assumption].
      * rewrite skipn_skipn. reflexivity.
    + (* one character *)
      rewrite Z.gtb_ltb in H1'. apply Z.ltb_ge in H1'.
      assert (k = 1%nat) as Hk1 by lia.
      intros Hret; returned Hret. subst out1. rewrite Hk1. cbn [repeat skipn].
      destruct HE1 as [b ->].
      repeat split; try lia.
      unfold label_ok. cbn [string_of_list_ascii list_ascii_of_string last
                            removelast forallb].
      rewrite pick_edge_ok. reflexivity.
Qed.

Lemma fill_slice_length out lo hi cs r e out' r' :
  (lo <= hi <= List.length out)%nat ->
  fill_slice out lo hi cs r = (e, out', r') ->
  List.length out' = List.length out.
Proof.
  intros Hb. unfold fill_slice, fillFromCharset, rand_Read.
  assert (List.length (firstn (hi - lo) (skipn lo out)) = (hi - lo)%nat) as Hl
    by (rewrite length_firstn, length_skipn; lia).
  rewrite Hl.
  destruct (hi - lo =? 0)%nat;
    [|destruct (hi - lo <=? List.length r)%nat eqn:Hr];
    intros [= _ <- _];
    rewrite !length_app, ?length_map, !length_firstn, !length_skipn;
    try apply Nat.leb_le in Hr; lia.
Qed.

(** With entropy for every character the generator returns a label. *)
Lemma randomLabel_succeeds (n : Z) (r : Entropy) :
  1 <= n <= 63 -> (Z.to_nat n <= List.length r)%nat ->
  exists s, randomLabel n r = (inr s, skipn (Z.to_nat n) r).
Proof.
  intros Hn Hr. unfold randomLabel.
  assert ((n <? 1) = false) as -> by (apply Z.ltb_ge; lia).
  assert ((n >? 63) = false) as ->
    by (rewrite Z.gtb_ltb; apply Z.ltb_ge; lia).
  cbn [orb]. set (k := Z.to_nat n) in *.
  assert (1 <= k <= 63)%nat as Hk by lia.
  assert (List.length (repeat zero k) = k) as Hl0 by apply repeat_length.
  destruct (fill_slice_enough (repeat zero k) 0 1 edge r) as [out1 F1];
    [lia | lia |].
  assert (List.length out1 = k) as Hl1
    by (eapply eq_trans;
        [eapply fill_slice_length; [|exact F1]; lia | exact Hl0]).
  rewrite F1. cbn [Nat.sub].
  destruct (Z.gtb_spec n 2) as [H2|H2].
  - destruct (fill_slice_enough out1 1 (k - 1) mid (skipn 1 r))
      as [out2 F2]; [lia | rewrite length_skipn; lia |].
    assert (List.length out2 = k) as Hl2
      by (eapply eq_trans;
          [eapply fill_slice_length; [|exact F2]; lia | exact Hl1]).
    rewrite F2.
    destruct (Z.gtb_spec n 1) as [H1|H1]; [|lia].
    destruct (fill_slice_enough out2 (k - 1) k edge
                (skipn (k - 1 - 1) (skipn 1 r))) as [out3 F3];
      [lia | rewrite !length_skipn; lia |].
    rewrite F3. eexists. f_equal. rewrite !skipn_skipn. f_equal. lia.
  - destruct (Z.gtb_spec n 1) as [H1|H1].
    + destruct (fill_slice_enough out1 (k - 1) k edge (skipn 1 r))
        as [out3 F3]; [lia | rewrite !length_skipn; lia |].
      rewrite F3. eexists. f_equal. rewrite !skipn_skipn. f_equal. lia.
    + eexists. f_equal. f_equal. lia.
Qed.

(** C7. Every name the generator produces is [label1.label2.com] with
    [label1] of 60 and [label2] of 63 characters; in each label the
    first and the last character are in [[a-z0-9]] and every character
    between them is in [[a-z0-9-]]. *)
Theorem RandomDomain128WithCOM_shape (r r' : Entropy) (name : string) :
  RandomDomain128WithCOM r = (inr name, r') ->
  exists label1 label2 : string,
    name = (label1 ++ "." ++ label2 ++ ".com")%string /\
    String.length label1 = 60%nat /\
    String.length label2 = 63%nat /\
    label_ok label1 = true /\
    label_ok label2 = true.
Proof.
  unfold RandomDomain128WithCOM.
  destruct (randomLabel 60 r) as [[e1|l1] r1] eqn:L1; [discriminate|].
  destruct (randomLabel 63 r1) as [[e2|l2] r2] eqn:L2; [discriminate|].
  intros Hret. returned Hret.
  apply randomLabel_shape in L1. apply randomLabel_shape in L2.
  destruct L1 as (_ & Hlen1 & Hok1 & _), L2 as (_ & Hlen2 & Hok2 & _).
  exists l1, l2. auto.
Qed.

(** With 123 bytes of entropy the generator does produce a name. *)
Lemma RandomDomain128WithCOM_succeeds (r : Entropy) :
  (123 <= List.length r)%nat ->
  exists name, RandomDomain128WithCOM r = (inr name, skipn 123 r).
Proof.
  intros Hr. unfold RandomDomain128WithCOM.
  destruct (randomLabel_succeeds 60 r) as [l1 ->]; [lia | lia |].
  destruct (randomLabel_succeeds 63 (skipn (Z.to_nat 60) r)) as [l2 ->];
    [lia | rewrite length_skipn; lia |].
  eexists. f_equal. rewrite skipn_skipn. reflexivity.
Qed.


Lemma RandomDomain128WithCOM_shape_witness :
  RandomDomain128WithCOM demo_entropy = (inr demo_name, []) /\
  exists label1 label2 : string,
    demo_name = (label1 ++ "." ++ label2 ++ ".com")%string /\
    String.length label1 = 60%nat /\
    String.length label2 = 63%nat /\
    label_ok label1 = true /\
    label_ok label2 = true.
Proof.
  split; [vm_compute; reflexivity|].
  apply (RandomDomain128WithCOM_shape demo_entropy [] demo_name).
  vm_compute; reflexivity.
Defined.

(** C8. The label generator fails with the length error for every
    requested length outside [1,63] (so for 0 and for 64), and for
    length 1 it returns a single character drawn from [[a-z0-9]], with
    no interior character, for one byte of entropy. *)
Theorem randomLabel_length_bounds :
  (forall (n : Z) (r : Entropy),
      n < 1 \/ 63 < n ->
      randomLabel n r = (inl (LabelLengthError n), r)) /\
  (forall (b : ascii) (r : Entropy),
      randomLabel 1 (b :: r) = (inr (String (pick edge b) EmptyString), r) /\
      is_edge_char (pick edge b) = true).
Proof.
  split.
  - intros n r Hn. unfold randomLabel.
    destruct (Z.ltb_spec n 1) as [H1|H1]; [reflexivity|].
    destruct (Z.gtb_spec n 63) as [H63|H63]; [reflexivity|]. lia.
  - intros b r. split; [reflexivity | apply pick_edge_ok].
Qed.

Lemma randomLabel_length_bounds_witness :
  (0 < 1 \/ 63 < 0) /\
  randomLabel 0 demo_entropy = (inl (LabelLengthError 0), demo_entropy) /\
  (64 < 1 \/ 63 < 64) /\
  randomLabel 64 demo_entropy = (inl (LabelLengthError 64), demo_entropy).
Proof.
  assert (H0 : 0 < 1 \/ 63 < 0) by (left; lia).
  assert (H64 : 64 < 1 \/ 63 < 64) by (right; lia).
  split; [exact H0|]. split.
  { exact (proj1 randomLabel_length_bounds 0 demo_entropy H0). }
  split; [exact H64|].
  exact (proj1 randomLabel_length_bounds 64 demo_entropy H64).
Defined.

(** Without entropy, a label of length 1 is the failure of the source. *)
Lemma randomLabel_one_no_entropy :
  randomLabel 1 [] = (inl EntropyError, []).
Proof. reflexivity. Qed.

(** ** The probe engine *)

Lemma sat64_nonneg (z : Z) : 0 <= z -> 0 <= sat64 z.
Proof. unfold sat64, minInt64, maxInt64. lia. Qed.

Lemma sat64_id (z : Z) : in_int64 z -> sat64 z = z.
Proof. unfold sat64, in_int64, minInt64, maxInt64. lia. Qed.

Lemma wrap64_id (z : Z) : in_int64 z -> wrap64 z = z.
Proof.
  unfold wrap64, in_int64, minInt64, maxInt64. intros H.
  rewrite Z.mod_small; lia.
Qed.

(** An operation under a deadline either completes, taking its time
    and ending before the deadline, or times out at the deadline; it
    makes no network call of its own. *)
Lemma under_deadline_spec {T : Type} (op : string) (dl : option Z) (lat : Z)
    (res r : error + T) (w w' : World) :
  under_deadline op dl lat res w = (r, w') ->
  trace w' = trace w /\ calls w' = calls w /\ env w' = env w /\
  ((r = res /\ now w' = now w + lat /\
    forall d, dl = Some d -> now w + lat < d) \/
   (r = inl (TimeoutError op) /\
    exists d, dl = Some d /\ d <= now w + lat /\ now w' = Z.max (now w) d)).
Proof.
  unfold under_deadline. destruct dl as [d|].
  - destruct (Z.ltb_spec (now w + lat) d) as [Hlt|Hge]; intros [= <- <-];
      cbn; repeat split.
    + left. repeat split. intros d' [= <-]. exact Hlt.
    + right. split; [reflexivity|]. exists d. auto.
  - intros [= <- <-]. cbn. repeat split. left. repeat split. discriminate.
Qed.

(** C9. When serialising the query fails, the probe returns that
    error and has made no network call: no dial, no write, no read. *)
Theorem ProbeA_pack_failure (codec : Dns.Codec) (ctx : Context)
    (server qname : string) (timeout : Z) (w : World) (e : error) :
  Dns.Pack codec (Dns.query (Dns.Fqdn codec qname) Dns.TypeA
                            (msg_id (env w (calls w)))) = inl e ->
  fst (ProbeA codec ctx server qname timeout w) = inl e /\
  trace (snd (ProbeA codec ctx server qname timeout w)) = trace w.
Proof.
  intros Hpack. unfold ProbeA. cbn [next_call env calls now trace].
  rewrite Hpack. split; reflexivity.
Qed.

Lemma ProbeA_pack_failure_witness :
  Dns.Pack demo_codec
    (Dns.query (Dns.Fqdn demo_codec "bad..name") Dns.TypeA
               (msg_id (env caching_world (calls caching_world))))
  = inl (PackError "bad rdata") /\
  fst (ProbeA demo_codec None "192.0.2.53" "bad..name" (3000 * ms)
              caching_world) = inl (PackError "bad rdata") /\
  trace (snd (ProbeA demo_codec None "192.0.2.53" "bad..name" (3000 * ms)
                     caching_world)) = trace caching_world.
Proof.
  assert (Hpack :
    Dns.Pack demo_codec
      (Dns.query (Dns.Fqdn demo_codec "bad..name") Dns.TypeA
                 (msg_id (env caching_world (calls caching_world))))
    = inl (PackError "bad rdata")) by (vm_compute; reflexivity).
  split; [exact Hpack|].
  exact (ProbeA_pack_failure demo_codec None "192.0.2.53" "bad..name"
           (3000 * ms) caching_world (PackError "bad rdata") Hpack).
Defined.

(** Any other probe does reach the network: its first call is the
    dial. *)
Lemma ProbeA_dials_after_pack (codec : Dns.Codec) (ctx : Context)
    (server qname : string) (timeout : Z) (w : World) (wire : string) :
  Dns.Pack codec (Dns.query (Dns.Fqdn codec qname) Dns.TypeA
                            (msg_id (env w (calls w)))) = inr wire ->
  exists rest,
    trace (snd (ProbeA codec ctx server qname timeout w))
    = (trace w ++ EvDial "udp" (normalizeServer server) :: rest)%list.
Proof.
  intros Hpack. unfold ProbeA. cbn [next_call env calls now trace].
  rewrite Hpack.
  destruct (DialContext _ _ _ _ _ _) as [[err|conn] w1] eqn:HD;
    unfold DialContext in HD; apply under_deadline_spec in HD;
    destruct HD as (Ht & _).
  - exists []. cbn [snd]. rewrite Ht. reflexivity.
  - unfold exchange, SetDeadline.
    destruct (conn_Write _ _ _ _) as [[err|nw] w2] eqn:HW;
      unfold conn_Write in HW; apply under_deadline_spec in HW;
      destruct HW as (Ht2 & _); cbn [trace emit] in Ht2.
    + eexists. cbn [snd conn_Close emit trace]. rewrite Ht2, Ht.
      cbn [trace emit]. rewrite <- !app_assoc. reflexivity.
    + destruct (conn_Read _ _ _ _) as [[err|got] w3] eqn:HR;
        unfold conn_Read in HR; apply under_deadline_spec in HR;
        destruct HR as (Ht3 & _); cbn [trace emit] in Ht3.
      * eexists. cbn [snd conn_Close emit trace]. rewrite Ht3, Ht2, Ht.
        cbn [trace emit]. rewrite <- !app_assoc. reflexivity.
      * destruct (Dns.Unpack codec got);
          eexists; cbn [snd conn_Close emit trace elapse];
          rewrite Ht3, Ht2, Ht; cbn [trace emit];
          rewrite <- !app_assoc; reflexivity.
Qed.

(** Applies [under_deadline_spec] to the equation [H] of a network
    call and names what it yields. *)
Ltac run_op H Htr Hnow :=
  apply under_deadline_spec in H;
  destruct H as (Htr & _ & _ & [(? & Hnow & ?) | (? & ? & ? & ? & Hnow)]);
  cbn [trace now emit elapse next_call conn_deadline] in *.

(** The run of a successful probe: every operation completed, the
    write and the read before the deadline set after the dial. *)
Lemma ProbeA_success (codec : Dns.Codec) (ctx : Context)
    (server qname : string) (timeout : Z) (w w' : World) (r : Result) :
  ProbeA codec ctx server qname timeout w = (inr r, w') ->
  let e := env w (calls w) in
  let t1 := now w + pack_lat e + dial_lat e in
  exists wire,
    Dns.Pack codec (Dns.query (Dns.Fqdn codec qname) Dns.TypeA (msg_id e))
      = inr wire /\
    (timeout <> 0 -> dial_lat e < timeout) /\
    write_lat e + read_lat e < timeout /\
    ResultTimings r =
      mkTimings
        (sat64 (pack_lat e + dial_lat e + write_lat e + read_lat e
                + unpack_lat e))
        (sat64 (dial_lat e)) (sat64 (pack_lat e)) (sat64 (write_lat e))
        (sat64 (read_lat e)) (sat64 (unpack_lat e))
        (wrap64 (sat64 (write_lat e) + sat64 (read_lat e))) /\
    now w' = t1 + write_lat e + read_lat e + unpack_lat e /\
    trace w' = (trace w ++ [EvDial "udp" (normalizeServer server);
                            EvSetDeadline (t1 + timeout);
                            EvWrite wire; EvRead; EvClose])%list.
Proof.
  unfold ProbeA. cbn [next_call env calls now trace].
  set (e := env w (calls w)).
  destruct (Dns.Pack codec _) as [err|wire] eqn:HP; [discriminate|].
  destruct (DialContext _ _ _ _ _ _) as [[err|conn] w1] eqn:HD;
    [discriminate|].
  unfold DialContext in HD. run_op HD Ht1 Hn1; [|discriminate].
  unfold exchange, SetDeadline.
  destruct (conn_Write _ _ _ _) as [[err|nw] w2] eqn:HW; [discriminate|].
  unfold conn_Write in HW. run_op HW Ht2 Hn2; [|discriminate].
  destruct (conn_Read _ _ _ _) as [[err|got] w3] eqn:HR; [discriminate|].
  unfold conn_Read in HR. run_op HR Ht3 Hn3; [|discriminate].
  destruct (Dns.Unpack codec got) as [err|resp]; [discriminate|].
  intros Hret. returned Hret.
  cbn [elapse now trace emit conn_deadline next_call conn_Close] in *.
  exists wire. split; [reflexivity|].
  assert (now w2 + read_lat e < now w1 + timeout) as Hread by auto.
  assert (now w1 + write_lat e < now w1 + timeout) as Hwrite by auto.
  repeat split.
  - intros Hz.
    match goal with H : forall d, min_deadline _ _ = Some d -> _ |- _ =>
      rename H into Hdl end.
    apply Z.eqb_neq in Hz. rewrite Hz in Hdl.
    destruct ctx as [c|]; cbn [min_deadline] in Hdl.
    + specialize (Hdl _ eq_refl). lia.
    + specialize (Hdl _ eq_refl). lia.
  - lia.
  - cbn [ResultTimings]. unfold Since. cbn [now elapse next_call].
    f_equal; f_equal; try lia. f_equal; f_equal; lia.
  - lia.
  - rewrite Ht3, Ht2, Ht1. rewrite <- !app_assoc. cbn [app].
    rewrite Hn1. reflexivity.
Qed.

(** C3. In the result of a successful probe each of the six phase
    durations (total, dial, pack, write, read, unpack) is at least 0,
    and [RTTApprox] is exactly [Write + Read]. *)
Theorem ProbeA_timings (codec : Dns.Codec) (ctx : Context)
    (server qname : string) (timeout : Z) (w w' : World) (r : Result) :
  clock_monotonic (env w (calls w)) ->
  in_int64 timeout ->
  ProbeA codec ctx server qname timeout w = (inr r, w') ->
  0 <= Total (ResultTimings r) /\
  0 <= Dial (ResultTimings r) /\
  0 <= Pack (ResultTimings r) /\
  0 <= Write (ResultTimings r) /\
  0 <= Read (ResultTimings r) /\
  0 <= Unpack (ResultTimings r) /\
  RTTApprox (ResultTimings r) = Write (ResultTimings r) + Read (ResultTimings r).
Proof.
  intros (Hp & Hd & Hw & Hr & Hu) Ht Hrun.
  apply ProbeA_success in Hrun.
  destruct Hrun as (wire & _ & _ & Hwr & -> & _).
  cbn [Total Dial Pack Write Read Unpack RTTApprox].
  repeat split; try (apply sat64_nonneg; lia).
  apply wrap64_id.
  rewrite !sat64_id; unfold in_int64, minInt64, maxInt64 in *; lia.
Qed.

Lemma ProbeA_timings_witness :
  clock_monotonic (env caching_world (calls caching_world)) /\
  in_int64 (3000 * ms) /\
  ProbeA demo_codec None "192.0.2.53" "example.org" (3000 * ms) caching_world
  = (inr demo_result,
     snd (ProbeA demo_codec None "192.0.2.53" "example.org" (3000 * ms)
                 caching_world)) /\
  0 <= Total (ResultTimings demo_result) /\
  0 <= Dial (ResultTimings demo_result) /\
  0 <= Pack (ResultTimings demo_result) /\
  0 <= Write (ResultTimings demo_result) /\
  0 <= Read (ResultTimings demo_result) /\
  0 <= Unpack (ResultTimings demo_result) /\
  RTTApprox (ResultTimings demo_result)
  = Write (ResultTimings demo_result) + Read (ResultTimings demo_result).
Proof.
  assert (Hc : clock_monotonic (env caching_world (calls caching_world)))
    by (unfold clock_monotonic; cbn; lia).
  assert (Ht : in_int64 (3000 * ms))
    by (unfold in_int64, minInt64, maxInt64, ms; lia).
  assert (Hrun :
    ProbeA demo_codec None "192.0.2.53" "example.org" (3000 * ms)
           caching_world
    = (inr demo_result,
       snd (ProbeA demo_codec None "192.0.2.53" "example.org" (3000 * ms)
                   caching_world)))
    by (vm_compute; reflexivity).
  split; [exact Hc|]. split; [exact Ht|]. split; [exact Hrun|].
  exact (ProbeA_timings demo_codec None "192.0.2.53" "example.org"
           (3000 * ms) caching_world _ demo_result Hc Ht Hrun).
Defined.

Lemma new_events_app (w w' : World) (evs : list Event) :
  trace w' = (trace w ++ evs)%list -> new_events w w' = evs.
Proof.
  unfold new_events. intros ->.
  rewrite skipn_app, skipn_all, Nat.sub_diag. reflexivity.
Qed.





(** ** The aggregator *)

Lemma phase_add (p : Phase) (a b : Timings) :
  phase p (add a b) = wrap64 (phase p a + phase p b).
Proof. destruct p; reflexivity. Qed.

Lemma phase_avg (p : Phase) (s : Timings) (n : Z) :
  phase p (avg s n) = if n <=? 0 then 0 else Z.quot (phase p s) n.
Proof. unfold avg. destruct (n <=? 0); destruct p; reflexivity. Qed.

Lemma avg_no_success (s : Timings) : avg s 0 = zeroTimings.
Proof. reflexivity. Qed.

(** The serial loop reduces the outcomes of its probes as the
    concurrent run reduces what it receives. *)
Lemma serial_loop_drain (codec : Dns.Codec) (ctx : Context)
    (server qname : string) (timeout : Z) (k : nat) (a : Acc) (w : World) :
  fst (serial_loop codec ctx server qname timeout k a w)
  = drain (map sent (serial_outcomes codec ctx server qname timeout k w)) a.
Proof.
  revert a w. induction k as [|k IH]; intros a w; [reflexivity|].
  cbn [serial_loop serial_outcomes].
  destruct (ProbeA codec ctx server qname timeout w) as [[e|r] w1];
    cbn [map sent drain err t]; apply IH.
Qed.

Lemma length_serial_outcomes (codec : Dns.Codec) (ctx : Context)
    (server qname : string) (timeout : Z) (k : nat) (w : World) :
  List.length (serial_outcomes codec ctx server qname timeout k w) = k.
Proof.
  revert w. induction k as [|k IH]; intros w; [reflexivity|].
  cbn [serial_outcomes].
  destruct (ProbeA codec ctx server qname timeout w) as [r w1].
  cbn [List.length]. now rewrite IH.
Qed.

Lemma goroutine_sent (codec : Dns.Codec) (ctx : Context)
    (server qname : string) (timeout : Z) (w : World) :
  goroutine codec ctx server qname timeout w
  = sent (fst (ProbeA codec ctx server qname timeout w)).
Proof. unfold goroutine, sent. now destruct (fst _). Qed.

Lemma successes_failures_length (outs : list (error + Result)) :
  len (successes outs) + len (failures outs) = len outs.
Proof.
  unfold len. induction outs as [|[e|r] outs IH];
    cbn [successes failures List.length]; lia.
Qed.

(** The counters after a reduction. *)
Lemma drain_counts (outs : list (error + Result)) (a : Acc) :
  acc_ok (drain (map sent outs) a) = acc_ok a + len (successes outs) /\
  acc_fail (drain (map sent outs) a) = acc_fail a + len (failures outs).
Proof.
  unfold len. revert a.
  induction outs as [|[e|r] outs IH]; intros a;
    cbn [map sent drain err t successes failures List.length].
  - lia.
  - destruct (IH (mkAcc (acc_sum a) (acc_ok a) (acc_fail a + 1))) as [-> ->].
    cbn [acc_ok acc_fail]. lia.
  - destruct (IH (mkAcc (add (acc_sum a) (ResultTimings r)) (acc_ok a + 1)
                        (acc_fail a))) as [-> ->].
    cbn [acc_ok acc_fail]. lia.
Qed.

Lemma sumZ_nonneg (xs : list Z) : Forall (fun x => 0 <= x) xs -> 0 <= sumZ xs.
Proof. induction 1; cbn [sumZ fold_right]; [lia|]. fold (sumZ l). lia. Qed.

(** The sums after a reduction, as long as they fit 64 bits. *)
Lemma drain_sum (p : Phase) (outs : list (error + Result)) (a : Acc) :
  Forall (fun x => 0 <= x) (map (phase p) (successes outs)) ->
  0 <= phase p (acc_sum a) ->
  phase p (acc_sum a) + sumZ (map (phase p) (successes outs)) <= maxInt64 ->
  phase p (acc_sum (drain (map sent outs) a))
  = phase p (acc_sum a) + sumZ (map (phase p) (successes outs)).
Proof.
  revert a.
  induction outs as [|[e|r] outs IH]; intros a Hpos Ha Hfit;
    cbn [map sent drain err t successes sumZ fold_right] in *.
  - lia.
  - rewrite IH; auto.
  - inversion Hpos as [|x xs Hx Hxs]; subst.
    fold (sumZ (map (phase p) (successes outs))) in *.
    pose proof (sumZ_nonneg _ Hxs) as Hs.
    rewrite IH; cbn [acc_sum]; rewrite ?phase_add, ?wrap64_id;
      unfold in_int64, minInt64, maxInt64 in *; try lia; auto.
Qed.

(** The mean of non-negative durations, rounded down. *)
Lemma Qfloor_mean (xs : list Z) :
  0 < len xs -> Qfloor (mean xs) = sumZ xs / len xs.
Proof.
  unfold mean. intros Hk. destruct (len xs) as [|k|k]; try lia.
  unfold Qdiv, Qinv, Qmult, inject_Z, Qfloor. cbn [Qnum Qden].
  rewrite Z.mul_1_r. reflexivity.
Qed.

(** The averaged phase of a reduction from the empty accumulators. *)
Lemma drain_avg (p : Phase) (outs : list (error + Result)) :
  let xs := map (phase p) (successes outs) in
  let a := drain (map sent outs) acc0 in
  Forall (fun x => 0 <= x) xs ->
  sumZ xs <= maxInt64 ->
  acc_ok a = len xs /\
  (len xs = 0 -> avg (acc_sum a) (acc_ok a) = zeroTimings) /\
  (0 < len xs -> phase p (avg (acc_sum a) (acc_ok a)) = Qfloor (mean xs)).
Proof.
  intros xs a Hpos Hfit.
  assert (acc_ok a = len xs) as Hok.
  { subst a xs. rewrite (proj1 (drain_counts outs acc0)).
    unfold len. rewrite length_map. reflexivity. }
  rewrite Hok. split; [reflexivity|]. split.
  - intros ->. reflexivity.
  - intros Hk. rewrite phase_avg, Qfloor_mean by exact Hk.
    destruct (Z.leb_spec (len xs) 0) as [|_]; [lia|].
    subst a. rewrite drain_sum; auto.
    + destruct p; cbn [phase acc_sum acc0 zeroTimings Total Dial Pack Write
                       Read Unpack RTTApprox]; fold xs;
        rewrite Z.add_0_l; apply Z.quot_div_nonneg;
        auto using sumZ_nonneg; lia.
    + destruct p; cbn; lia.
    + destruct p; cbn [phase acc_sum acc0 zeroTimings Total Dial Pack Write
                       Read Unpack RTTApprox]; fold xs; lia.
Qed.

Lemma BenchmarkSerial_reduce (codec : Dns.Codec) (ctx : Context)
    (server qname : string) (timeout n : Z) (w : World) :
  let a := drain (map sent (serial_outcomes codec ctx server qname timeout
                                            (Z.to_nat n) w)) acc0 in
  fst (BenchmarkSerial codec ctx server qname timeout n w)
  = mkBenchmark n (acc_ok a) (acc_fail a) (avg (acc_sum a) (acc_ok a)).
Proof.
  cbv zeta. rewrite <- serial_loop_drain. unfold BenchmarkSerial.
  destruct (serial_loop _ _ _ _ _ _ _ _) as [a w1]. reflexivity.
Qed.

Lemma BenchmarkConcurrent_reduce (codec : Dns.Codec) (ctx : Context)
    (server qname : string) (timeout n : Z) (worlds : nat -> World)
    (sched : list nat) :
  0 <= n ->
  let a := drain (map sent (concurrent_outcomes codec ctx server qname timeout
                                                worlds sched)) acc0 in
  BenchmarkConcurrent codec ctx server qname timeout n worlds sched
  = Some (mkBenchmark n (acc_ok a) (acc_fail a) (avg (acc_sum a) (acc_ok a))).
Proof.
  intros Hn. cbv zeta. unfold BenchmarkConcurrent, concurrent_outcomes.
  destruct (Z.ltb_spec n 0); [lia|].
  rewrite map_map.
  rewrite (map_ext _ _ (fun i => goroutine_sent codec ctx server qname timeout
                                                (worlds i))).
  reflexivity.
Qed.

(** C1, amended. For every serial run, whatever the outcomes of its
    probes: the success count is the number of successful outcomes;
    with no success the averaged timings are all zero; otherwise each
    averaged phase is the arithmetic mean of the successful durations
    of that phase rounded down to a whole nanosecond (Go's integer
    division of the sum by the success count), as long as the
    durations are non-negative and their sum fits a [time.Duration]. *)
Theorem BenchmarkSerial_avg_floor_mean (codec : Dns.Codec) (ctx : Context)
    (server qname : string) (timeout n : Z) (w : World) (p : Phase) :
  let outs := serial_outcomes codec ctx server qname timeout (Z.to_nat n) w in
  let xs := map (phase p) (successes outs) in
  let b := fst (BenchmarkSerial codec ctx server qname timeout n w) in
  Forall (fun x => 0 <= x) xs ->
  sumZ xs <= maxInt64 ->
  Success b = len xs /\
  (len xs = 0 -> Avg b = zeroTimings) /\
  (0 < len xs -> phase p (Avg b) = Qfloor (mean xs)).
Proof.
  intros outs xs b Hpos Hfit. subst b.
  rewrite BenchmarkSerial_reduce. cbn [Success Avg].
  exact (drain_avg p outs Hpos Hfit).
Qed.

Lemma BenchmarkSerial_avg_floor_mean_witness :
  let xs := [1000 * ms; 500 * ms; 250 * ms] in
  let b := fst (BenchmarkSerial demo_codec None "192.0.2.53" "example.org"
                                (3000 * ms) 3 caching_world) in
  Forall (fun x => 0 <= x) xs /\
  sumZ xs <= maxInt64 /\
  Success b = len xs /\
  (len xs = 0 -> Avg b = zeroTimings) /\
  (0 < len xs -> Total (Avg b) = Qfloor (mean xs)).
Proof.
  cbv zeta.
  assert (Hpos : Forall (fun x => 0 <= x) [1000 * ms; 500 * ms; 250 * ms])
    by (repeat constructor; unfold ms; lia).
  assert (Hfit : sumZ [1000 * ms; 500 * ms; 250 * ms] <= maxInt64)
    by (unfold sumZ, maxInt64, ms; cbn [fold_right]; lia).
  split; [exact Hpos|]. split; [exact Hfit|].
  exact (BenchmarkSerial_avg_floor_mean demo_codec None "192.0.2.53"
           "example.org" (3000 * ms) 3 caching_world PTotal Hpos Hfit).
Defined.

(** C1 as stated fails on the scenario of the specification: three
    serial successes with totals 1000 ms, 500 ms and 250 ms average to
    583333333 ns, which is not their mean, 583333333 ns and a third. *)
Lemma BenchmarkSerial_mean_not_exact :
  let outs := serial_outcomes demo_codec None "192.0.2.53" "example.org"
                              (3000 * ms) 3 caching_world in
  let b := fst (BenchmarkSerial demo_codec None "192.0.2.53" "example.org"
                                (3000 * ms) 3 caching_world) in
  failures outs = [] /\
  map Total (successes outs) = [1000 * ms; 500 * ms; 250 * ms] /\
  Success b = 3 /\
  Total (Avg b) = 583333333 /\
  ~ Qeq (inject_Z (Total (Avg b))) (mean [1000 * ms; 500 * ms; 250 * ms]).
Proof.
  cbv zeta. repeat split; try (vm_compute; reflexivity).
  intros H. vm_compute in H. discriminate H.
Qed.

(** The concurrent run averages in the same way, whatever the order
    in which the goroutines deliver. *)
Lemma BenchmarkConcurrent_avg_floor_mean (codec : Dns.Codec) (ctx : Context)
    (server qname : string) (timeout n : Z) (worlds : nat -> World)
    (sched : list nat) (p : Phase) :
  let outs := concurrent_outcomes codec ctx server qname timeout worlds
                                  sched in
  let xs := map (phase p) (successes outs) in
  0 <= n ->
  Forall (fun x => 0 <= x) xs ->
  sumZ xs <= maxInt64 ->
  exists b,
    BenchmarkConcurrent codec ctx server qname timeout n worlds sched = Some b /\
    Success b = len xs /\
    (len xs = 0 -> Avg b = zeroTimings) /\
    (0 < len xs -> phase p (Avg b) = Qfloor (mean xs)).
Proof.
  intros outs xs Hn Hpos Hfit.
  rewrite BenchmarkConcurrent_reduce by exact Hn.
  eexists. split; [reflexivity|]. cbn [Success Avg].
  exact (drain_avg p outs Hpos Hfit).
Qed.

(** C2, amended. For every benchmark run with [n >= 0] requested
    attempts, serial or concurrent, the result has [Attempts = n] and
    [Success + Fail = Attempts]. *)
Theorem Benchmark_counts (codec : Dns.Codec) (ctx : Context)
    (server qname : string) (timeout n : Z) :
  0 <= n ->
  (forall w : World,
      let b := fst (BenchmarkSerial codec ctx server qname timeout n w) in
      Attempts b = n /\ Success b + Fail b = Attempts b) /\
  (forall (worlds : nat -> World) (sched : list nat),
      schedule_of n sched ->
      exists b,
        BenchmarkConcurrent codec ctx server qname timeout n worlds sched
        = Some b /\
        Attempts b = n /\ Success b + Fail b = Attempts b).
Proof.
  intros Hn. split.
  - intros w. cbv zeta. rewrite BenchmarkSerial_reduce.
    cbn [Attempts Success Fail]. split; [reflexivity|].
    destruct (drain_counts
                (serial_outcomes codec ctx server qname timeout (Z.to_nat n) w)
                acc0) as [-> ->].
    cbn [acc0 acc_ok acc_fail]. rewrite !Z.add_0_l.
    rewrite successes_failures_length. unfold len.
    rewrite length_serial_outcomes. lia.
  - intros worlds sched Hs.
    rewrite BenchmarkConcurrent_reduce by exact Hn.
    eexists. split; [reflexivity|].
    cbn [Attempts Success Fail]. split; [reflexivity|].
    destruct (drain_counts
                (concurrent_outcomes codec ctx server qname timeout worlds
                                     sched) acc0) as [-> ->].
    cbn [acc0 acc_ok acc_fail]. rewrite !Z.add_0_l.
    rewrite successes_failures_length. unfold len, concurrent_outcomes.
    rewrite length_map, (Permutation_length Hs), length_seq. lia.
Qed.

Lemma Benchmark_counts_witness :
  0 <= 3 /\
  let b := fst (BenchmarkSerial demo_codec None "192.0.2.53" "example.org"
                                (3000 * ms) 3 caching_world) in
  Attempts b = 3 /\ Success b + Fail b = Attempts b.
Proof.
  assert (H3 : 0 <= 3) by lia.
  split; [exact H3|].
  exact (proj1 (Benchmark_counts demo_codec None "192.0.2.53" "example.org"
                  (3000 * ms) 3 H3) caching_world).
Defined.

(** C2 as stated fails for a negative [n]: the serial run makes no
    probe and still reports [Attempts = n]. *)
Lemma BenchmarkSerial_negative_attempts :
  let b := fst (BenchmarkSerial demo_codec None "192.0.2.53" "example.org"
                                (3000 * ms) (-1) caching_world) in
  Attempts b = -1 /\ Success b = 0 /\ Fail b = 0 /\
  Success b + Fail b <> Attempts b.
Proof. cbv zeta. repeat split. vm_compute. discriminate. Qed.

(** A concurrent run with a negative [n] returns nothing. *)
Lemma BenchmarkConcurrent_negative (codec : Dns.Codec) (ctx : Context)
    (server qname : string) (timeout n : Z) (worlds : nat -> World)
    (sched : list nat) :
  n < 0 ->
  BenchmarkConcurrent codec ctx server qname timeout n worlds sched = None.
Proof.
  intros Hn. unfold BenchmarkConcurrent.
  destruct (Z.ltb_spec n 0); [reflexivity | lia].
Qed.

Lemma all_failed (outs : list (error + Result)) :
  Forall (fun o => exists e, o = inl e) outs ->
  successes outs = [] /\ len (failures outs) = len outs.
Proof.
  unfold len. induction 1 as [|o outs [e ->] _ [IHs IHf]];
    cbn [successes failures List.length]; [auto|].
  split; [exact IHs | lia].
Qed.

(** C5. When each of the 10 probes of a concurrent run fails, the
    result has [Success = 0], [Fail = 10] and all averaged phases
    zero. *)
Theorem BenchmarkConcurrent_all_fail (codec : Dns.Codec) (ctx : Context)
    (server qname : string) (timeout : Z) (worlds : nat -> World)
    (sched : list nat) :
  schedule_of 10 sched ->
  (forall i : nat, (i < 10)%nat ->
     exists e, fst (ProbeA codec ctx server qname timeout (worlds i)) = inl e) ->
  BenchmarkConcurrent codec ctx server qname timeout 10 worlds sched
  = Some (mkBenchmark 10 0 10 zeroTimings).
Proof.
  intros Hs Hfail.
  rewrite BenchmarkConcurrent_reduce by lia. cbv zeta.
  set (outs := concurrent_outcomes codec ctx server qname timeout worlds sched).
  assert (Forall (fun o => exists e, o = inl e) outs) as Hall.
  { subst outs. unfold concurrent_outcomes. apply Forall_forall.
    intros o Ho. apply in_map_iff in Ho. destruct Ho as (i & <- & Hi).
    apply Hfail. apply (Permutation_in _ Hs) in Hi.
    apply in_seq in Hi. change (Z.to_nat 10) with 10%nat in Hi. lia. }
  destruct (all_failed outs Hall) as [Hsucc Hf].
  destruct (drain_counts outs acc0) as [Hok Hfl].
  rewrite Hok, Hfl, Hsucc, Hf. cbn [acc0 acc_ok acc_fail successes].
  assert (len outs = 10) as ->.
  { subst outs. unfold len, concurrent_outcomes.
    rewrite length_map, (Permutation_length Hs), length_seq. reflexivity. }
  reflexivity.
Qed.

Lemma BenchmarkConcurrent_all_fail_witness :
  schedule_of 10 (rev (seq 0 10)) /\
  (forall i : nat, (i < 10)%nat ->
     exists e, fst (ProbeA demo_codec None "192.0.2.53" "example.org"
                           (3000 * ms) (world_of [])) = inl e) /\
  BenchmarkConcurrent demo_codec None "192.0.2.53" "example.org" (3000 * ms)
                      10 (fun _ => world_of []) (rev (seq 0 10))
  = Some (mkBenchmark 10 0 10 zeroTimings).
Proof.
  assert (Hs : schedule_of 10 (rev (seq 0 10)))
    by (apply Permutation_sym, Permutation_rev).
  assert (Hf : forall i : nat, (i < 10)%nat ->
     exists e, fst (ProbeA demo_codec None "192.0.2.53" "example.org"
                           (3000 * ms) (world_of [])) = inl e)
    by (intros i _; exists (TimeoutError "read"); vm_compute; reflexivity).
  split; [exact Hs|]. split; [exact Hf|].
  exact (BenchmarkConcurrent_all_fail demo_codec None "192.0.2.53"
           "example.org" (3000 * ms) (fun _ => world_of []) _ Hs Hf).
Defined.

(** C10. For [n <= 0] the serial benchmark makes no probe (the world
    is as it was) and returns [Attempts = n], [Success = 0],
    [Fail = 0] and all averaged phases zero. *)
Theorem BenchmarkSerial_nonpositive (codec : Dns.Codec) (ctx : Context)
    (server qname : string) (timeout n : Z) (w : World) :
  n <= 0 ->
  BenchmarkSerial codec ctx server qname timeout n w
  = (mkBenchmark n 0 0 zeroTimings, w).
Proof.
  intros Hn. unfold BenchmarkSerial.
  replace (Z.to_nat n) with 0%nat by lia. reflexivity.
Qed.

Lemma BenchmarkSerial_nonpositive_witness :
  -2 <= 0 /\
  BenchmarkSerial demo_codec None "192.0.2.53" "example.org" (3000 * ms)
                  (-2) caching_world
  = (mkBenchmark (-2) 0 0 zeroTimings, caching_world).
Proof.
  assert (H : -2 <= 0) by lia.
  split; [exact H|].
  exact (BenchmarkSerial_nonpositive demo_codec None "192.0.2.53"
           "example.org" (3000 * ms) (-2) caching_world H).
Defined.


(** * Further properties *)

(** ** The probe engine: network calls and result fields *)

(** The network calls of a probe, whatever its outcome. *)
Lemma ProbeA_trace (codec : Dns.Codec) (ctx : Context)
    (server qname : string) (timeout : Z) (w w' : World)
    (r : error + Result) :
  ProbeA codec ctx server qname timeout w = (r, w') ->
  let e := env w (calls w) in
  let srv := normalizeServer server in
  let dl := now w + pack_lat e + dial_lat e + timeout in
  (new_events w w' = [] /\
   exists err, r = inl err /\
     Dns.Pack codec (Dns.query (Dns.Fqdn codec qname) Dns.TypeA (msg_id e))
     = inl err) \/
  (exists wire,
     Dns.Pack codec (Dns.query (Dns.Fqdn codec qname) Dns.TypeA (msg_id e))
     = inr wire /\
     ((new_events w w' = [EvDial "udp" srv] /\ exists err, r = inl err) \/
      (new_events w w' = [EvDial "udp" srv; EvSetDeadline dl; EvWrite wire;
                          EvClose] /\ exists err, r = inl err) \/
      new_events w w' = [EvDial "udp" srv; EvSetDeadline dl; EvWrite wire;
                         EvRead; EvClose])).
Proof.
  unfold ProbeA. cbn [next_call env calls now trace].
  set (e := env w (calls w)) in *.
  destruct (Dns.Pack codec _) as [err|wire] eqn:HP.
  { intros [= <- <-]. left. split; [|eauto].
    apply new_events_app. cbn. now rewrite app_nil_r. }
  destruct (DialContext _ _ _ _ _ _) as [[err|conn] w1] eqn:HD;
    unfold DialContext in HD; run_op HD Ht1 Hn1.
  1, 2: intros [= <- <-]; right; exists wire; (split; [reflexivity|]); left;
        (split; [apply new_events_app; exact Ht1 | eauto]).
  2: discriminate.
  unfold exchange, SetDeadline.
  destruct (conn_Write _ _ _ _) as [[err|nw] w2] eqn:HW;
    unfold conn_Write in HW; run_op HW Ht2 Hn2.
  1, 2: intros [= <- <-]; right; exists wire; (split; [reflexivity|]);
        right; left; (split; [|eauto]);
        apply new_events_app; cbn [conn_Close trace emit];
        rewrite Ht2, Ht1, <- !app_assoc; cbn [app]; rewrite Hn1; reflexivity.
  2: discriminate.
  destruct (conn_Read _ _ _ _) as [[err|got] w3] eqn:HR;
    unfold conn_Read in HR; run_op HR Ht3 Hn3.
  1, 2: intros [= <- <-]; right; exists wire; (split; [reflexivity|]);
        right; right;
        apply new_events_app; cbn [conn_Close trace emit];
        rewrite Ht3, Ht2, Ht1, <- !app_assoc; cbn [app]; rewrite Hn1;
        reflexivity.
  2: discriminate.
  destruct (Dns.Unpack codec got) as [err|resp]; intros [= <- <-];
    right; exists wire; (split; [reflexivity|]); right; right;
    apply new_events_app; cbn [conn_Close trace emit elapse];
    rewrite Ht3, Ht2, Ht1, <- !app_assoc; cbn [app]; rewrite Hn1;
    reflexivity.
Qed.


(** A probe makes at most one dial, one write and one read, in that
    order, and closes the connection exactly when the dial succeeded,
    as its last call: its network calls are one of four sequences.  A
    successful probe made all five calls. *)
Theorem ProbeA_network_calls (codec : Dns.Codec) (ctx : Context)
    (server qname : string) (timeout : Z) (w : World) :
  let e := env w (calls w) in
  let srv := normalizeServer server in
  let dl := now w + pack_lat e + dial_lat e + timeout in
  let run := ProbeA codec ctx server qname timeout w in
  let evs := new_events w (snd run) in
  (evs = [] \/
   evs = [EvDial "udp" srv] \/
   exists wire,
     evs = [EvDial "udp" srv; EvSetDeadline dl; EvWrite wire; EvClose] \/
     evs = [EvDial "udp" srv; EvSetDeadline dl; EvWrite wire; EvRead;
            EvClose]) /\
  (forall r, fst run = inr r ->
     exists wire,
       evs = [EvDial "udp" srv; EvSetDeadline dl; EvWrite wire; EvRead;
              EvClose]).
Proof.
  cbv zeta.
  pose proof (ProbeA_trace codec ctx server qname timeout w _ _
                (surjective_pairing _)) as H.
  cbv zeta in H.
  destruct H as [(-> & err & Hr & _)
                |(wire & _ & [(-> & err & Hr)|[(-> & err & Hr)| ->]])].
  - split; [auto|]. intros r Hx. rewrite Hr in Hx. discriminate.
  - split; [auto|]. intros r Hx. rewrite Hr in Hx. discriminate.
  - split; [eauto 6|]. intros r Hx. rewrite Hr in Hx. discriminate.
  - split; eauto 6.
Qed.

(** Everything a successful probe went through. *)
Lemma ProbeA_success_result (codec : Dns.Codec) (ctx : Context)
    (server qname : string) (timeout : Z) (w w' : World) (r : Result) :
  ProbeA codec ctx server qname timeout w = (inr r, w') ->
  let e := env w (calls w) in
  exists wire l rem dgram resp,
    Dns.Pack codec (Dns.query (Dns.Fqdn codec qname) Dns.TypeA (msg_id e))
      = inr wire /\
    dial_res e = inr (l, rem) /\
    write_res e = None /\
    read_res e = inr dgram /\
    Dns.Unpack codec (String.substring 0 (Z.to_nat 65535) dgram) = inr resp /\
    r = mkResult (normalizeServer server) "udp" l rem timeout qname
          (Dns.RcodeToString codec (Dns.Rcode resp)) (Dns.Id resp)
          (mkFlags (Dns.Response resp) (Dns.Authoritative resp)
                   (Dns.Truncated resp) (Dns.RecursionDesired resp)
                   (Dns.RecursionAvailable resp)
                   (Dns.AuthenticatedData resp)
                   (Dns.CheckingDisabled resp))
          (len (Dns.Answer resp)) (len (Dns.Ns resp)) (len (Dns.Extra resp))
          (Z.of_nat (String.length wire))
          (Z.of_nat (String.length
                       (String.substring 0 (Z.to_nat 65535) dgram)))
          (address_answers (Dns.Answer resp))
          (ResultTimings r).
Proof.
  unfold ProbeA. cbn [next_call env calls now trace].
  set (e := env w (calls w)).
  destruct (Dns.Pack codec _) as [err|wire] eqn:HP; [discriminate|].
  destruct (DialContext _ _ _ _ _ _) as [[err|conn] w1] eqn:HD;
    [discriminate|].
  unfold DialContext in HD. run_op HD Ht1 Hn1; [|discriminate].
  unfold exchange, SetDeadline.
  destruct (conn_Write _ _ _ _) as [[err|nw] w2] eqn:HW; [discriminate|].
  unfold conn_Write in HW. run_op HW Ht2 Hn2; [|discriminate].
  destruct (conn_Read _ _ _ _) as [[err|got] w3] eqn:HR; [discriminate|].
  unfold conn_Read in HR. run_op HR Ht3 Hn3; [|discriminate].
  destruct (Dns.Unpack codec got) as [err|resp] eqn:HU; [discriminate|].
  intros Hret. returned Hret.
  destruct (dial_res e) as [derr|[l rem]] eqn:Hdial; [discriminate|].
  destruct (write_res e) as [werr|] eqn:Hwrite; [discriminate|].
  destruct (read_res e) as [rerr|dgram] eqn:Hread; [discriminate|].
  repeat match goal with H : inr _ = inr _ |- _ =>
    apply (inr_inj _ _) in H; subst end.
  exists wire, l, rem, dgram, resp. cbn [conn_local conn_remote].
  repeat split; assumption || reflexivity.
Qed.

Lemma length_substring_0 (n : nat) (s : string) :
  String.length (String.substring 0 n s) = Nat.min n (String.length s).
Proof.
  revert s. induction n as [|n IH]; intros [|c s]; cbn; auto.
Qed.

(** The result of a successful probe echoes the request with the
    server normalised and the name as given; [QuerySizeBytes] is the
    length of the packed query, and [ResponseSizeBytes] the length of
    the datagram, or 65535 (the read buffer) if the datagram is
    longer. *)
Theorem ProbeA_result_sizes (codec : Dns.Codec) (ctx : Context)
    (server qname : string) (timeout : Z) (w w' : World) (r : Result) :
  ProbeA codec ctx server qname timeout w = (inr r, w') ->
  let e := env w (calls w) in
  Server r = normalizeServer server /\
  Network r = "udp"%string /\
  QName r = qname /\
  Timeout r = timeout /\
  (exists wire,
     Dns.Pack codec (Dns.query (Dns.Fqdn codec qname) Dns.TypeA (msg_id e))
     = inr wire /\
     QuerySizeBytes r = Z.of_nat (String.length wire)) /\
  (exists dgram,
     read_res e = inr dgram /\
     ResponseSizeBytes r
     = Z.min (Z.of_nat (String.length dgram)) read_buffer_size).
Proof.
  intros Hrun. apply ProbeA_success_result in Hrun. cbv zeta in *.
  destruct Hrun as (wire & l & rem & dgram & resp & HP & _ & _ & HR & _ & ->).
  cbn [Server Network QName Timeout QuerySizeBytes ResponseSizeBytes].
  repeat split.
  - exists wire. split; [exact HP | reflexivity].
  - exists dgram. split; [exact HR|].
    rewrite length_substring_0. unfold read_buffer_size. lia.
Qed.

Lemma ProbeA_result_sizes_witness :
  ProbeA demo_codec None "192.0.2.53" "example.org" (3000 * ms) caching_world
  = (inr demo_result,
     snd (ProbeA demo_codec None "192.0.2.53" "example.org" (3000 * ms)
                 caching_world)) /\
  Server demo_result = normalizeServer "192.0.2.53" /\
  QuerySizeBytes demo_result = 18 /\
  ResponseSizeBytes demo_result = 8.
Proof.
  assert (Hrun :
    ProbeA demo_codec None "192.0.2.53" "example.org" (3000 * ms)
           caching_world
    = (inr demo_result,
       snd (ProbeA demo_codec None "192.0.2.53" "example.org" (3000 * ms)
                   caching_world)))
    by (vm_compute; reflexivity).
  split; [exact Hrun|].
  pose proof (ProbeA_result_sizes demo_codec None "192.0.2.53" "example.org"
                (3000 * ms) caching_world _ demo_result Hrun) as H.
  split; [exact (proj1 H)|]. split; reflexivity.
Defined.





Lemma sat64_mono (a b : Z) : a <= b -> sat64 a <= sat64 b.
Proof. unfold sat64, minInt64, maxInt64. lia. Qed.

(** In the result of a successful probe, [Total] is at least each of
    the five phases it spans, and at least [RTTApprox]. *)
Theorem ProbeA_total_dominates (codec : Dns.Codec) (ctx : Context)
    (server qname : string) (timeout : Z) (w w' : World) (r : Result) :
  clock_monotonic (env w (calls w)) ->
  in_int64 timeout ->
  ProbeA codec ctx server qname timeout w = (inr r, w') ->
  Dial (ResultTimings r) <= Total (ResultTimings r) /\
  Pack (ResultTimings r) <= Total (ResultTimings r) /\
  Write (ResultTimings r) <= Total (ResultTimings r) /\
  Read (ResultTimings r) <= Total (ResultTimings r) /\
  Unpack (ResultTimings r) <= Total (ResultTimings r) /\
  RTTApprox (ResultTimings r) <= Total (ResultTimings r).
Proof.
  intros (Hp & Hd & Hw & Hr & Hu) Ht Hrun.
  apply ProbeA_success in Hrun.
  destruct Hrun as (wire & _ & _ & Hwr & -> & _).
  cbn [Total Dial Pack Write Read Unpack RTTApprox].
  repeat split; try (apply sat64_mono; lia).
  rewrite wrap64_id.
  - rewrite !sat64_id by (unfold in_int64, minInt64, maxInt64 in *; lia).
    rewrite <- (sat64_id (write_lat _ + read_lat _))
      by (unfold in_int64, minInt64, maxInt64 in *; lia).
    apply sat64_mono. lia.
  - rewrite !sat64_id; unfold in_int64, minInt64, maxInt64 in *; lia.
Qed.

Lemma ProbeA_total_dominates_witness :
  clock_monotonic (env slow_world (calls slow_world)) /\
  in_int64 (1000 * ms) /\
  exists r,
    fst (ProbeA demo_codec None "192.0.2.53" "example.org" (1000 * ms)
                slow_world) = inr r /\
    Dial (ResultTimings r) <= Total (ResultTimings r) /\
    Pack (ResultTimings r) <= Total (ResultTimings r) /\
    Write (ResultTimings r) <= Total (ResultTimings r) /\
    Read (ResultTimings r) <= Total (ResultTimings r) /\
    Unpack (ResultTimings r) <= Total (ResultTimings r) /\
    RTTApprox (ResultTimings r) <= Total (ResultTimings r).
Proof.
  assert (Hc : clock_monotonic (env slow_world (calls slow_world)))
    by (unfold clock_monotonic; cbn; lia).
  assert (Ht : in_int64 (1000 * ms))
    by (unfold in_int64, minInt64, maxInt64, ms; lia).
  split; [exact Hc|]. split; [exact Ht|].
  eexists. split; [vm_compute; reflexivity|].
  refine (ProbeA_total_dominates demo_codec None "192.0.2.53" "example.org"
            (1000 * ms) slow_world _ _ Hc Ht _).
  vm_compute. reflexivity.
Defined.



(** A probe with a zero or negative timeout never succeeds: a
    negative timeout fails the dial, and with a zero timeout the
    deadline set after the dial has passed before the write. *)
Theorem ProbeA_nonpositive_timeout (codec : Dns.Codec) (ctx : Context)
    (server qname : string) (timeout : Z) (w : World) :
  clock_monotonic (env w (calls w)) ->
  timeout <= 0 ->
  exists e, fst (ProbeA codec ctx server qname timeout w) = inl e.
Proof.
  intros (Hp & Hd & Hw & Hr & Hu) Ht.
  destruct (ProbeA codec ctx server qname timeout w) as [[e|r] w'] eqn:Hrun;
    [cbn [fst]; eauto|].
  apply ProbeA_success in Hrun.
  destruct Hrun as (wire & _ & _ & Hwr & _). lia.
Qed.

Lemma ProbeA_nonpositive_timeout_witness :
  clock_monotonic (env caching_world (calls caching_world)) /\
  0 <= 0 /\
  exists e,
    fst (ProbeA demo_codec None "192.0.2.53" "example.org" 0 caching_world)
    = inl e.
Proof.
  assert (Hc : clock_monotonic (env caching_world (calls caching_world)))
    by (unfold clock_monotonic; cbn; lia).
  assert (Ht : 0 <= 0) by lia.
  split; [exact Hc|]. split; [exact Ht|].
  exact (ProbeA_nonpositive_timeout demo_codec None "192.0.2.53"
           "example.org" 0 caching_world Hc Ht).
Defined.

(** ** The aggregator: order, composition and rounding *)

Lemma wrap64_add_l (a b : Z) : wrap64 (wrap64 a + b) = wrap64 (a + b).
Proof.
  unfold wrap64. f_equal.
  replace ((a + 2 ^ 63) mod 2 ^ 64 - 2 ^ 63 + b + 2 ^ 63)
    with ((a + 2 ^ 63) mod 2 ^ 64 + b) by lia.
  rewrite Zplus_mod_idemp_l. f_equal. lia.
Qed.

Lemma wrap64_add_r (a b : Z) : wrap64 (a + wrap64 b) = wrap64 (a + b).
Proof. rewrite (Z.add_comm a), wrap64_add_l. f_equal. lia. Qed.

Lemma wrap64_range (z : Z) : in_int64 (wrap64 z).
Proof.
  unfold wrap64, in_int64, minInt64, maxInt64.
  pose proof (Z.mod_pos_bound (z + 2 ^ 63) (2 ^ 64) ltac:(lia)). lia.
Qed.

Lemma sat64_range (z : Z) : in_int64 (sat64 z).
Proof. unfold sat64, in_int64, minInt64, maxInt64. lia. Qed.

Lemma Timings_ext (a b : Timings) :
  (forall p, phase p a = phase p b) -> a = b.
Proof.
  intros H. destruct a, b.
  pose proof (H PTotal). pose proof (H PDial). pose proof (H PPack).
  pose proof (H PWrite). pose proof (H PRead). pose proof (H PUnpack).
  pose proof (H PRTTApprox). cbn [phase Total Dial Pack Write Read Unpack
                                  RTTApprox] in *.
  congruence.
Qed.

(** Adding timings is commutative and associative, also when a sum
    wraps around. *)
Theorem add_comm_assoc :
  (forall a b, add a b = add b a) /\
  (forall a b c, add (add a b) c = add a (add b c)).
Proof.
  split.
  - intros a b. apply Timings_ext. intros p. rewrite !phase_add.
    f_equal. lia.
  - intros a b c. apply Timings_ext. intros p. rewrite !phase_add.
    rewrite wrap64_add_l, wrap64_add_r. f_equal. lia.
Qed.

Lemma add_swap (s x y : Timings) : add (add s x) y = add (add s y) x.
Proof.
  apply Timings_ext. intros p. rewrite !phase_add, !wrap64_add_l.
  f_equal. lia.
Qed.

(** The reduction does not depend on the order of what it receives. *)
Lemma drain_Permutation (ch1 ch2 : list one) :
  Permutation ch1 ch2 -> forall a, drain ch1 a = drain ch2 a.
Proof.
  induction 1 as [|v l1 l2 _ IH|x y l|l1 l2 l3 _ IH1 _ IH2]; intros a.
  - reflexivity.
  - cbn [drain]. destruct (err v); apply IH.
  - cbn [drain]. destruct (err x), (err y); cbn [acc_sum acc_ok acc_fail];
      try reflexivity.
    rewrite add_swap. reflexivity.
  - rewrite IH1. apply IH2.
Qed.

(** The result of a concurrent run does not depend on the order in
    which the goroutines deliver their results. *)
Theorem BenchmarkConcurrent_schedule_independent (codec : Dns.Codec)
    (ctx : Context) (server qname : string) (timeout n : Z)
    (worlds : nat -> World) (sched1 sched2 : list nat) :
  schedule_of n sched1 ->
  schedule_of n sched2 ->
  BenchmarkConcurrent codec ctx server qname timeout n worlds sched1
  = BenchmarkConcurrent codec ctx server qname timeout n worlds sched2.
Proof.
  unfold schedule_of, BenchmarkConcurrent. intros H1 H2.
  destruct (n <? 0); [reflexivity|].
  assert (Permutation sched1 sched2) as H
    by (eapply Permutation_trans; [exact H1 | apply Permutation_sym, H2]).
  rewrite (drain_Permutation _ _
             (Permutation_map
                (fun i => goroutine codec ctx server qname timeout (worlds i))
                H) acc0).
  reflexivity.
Qed.

Lemma BenchmarkConcurrent_schedule_independent_witness :
  schedule_of 3 [2; 0; 1]%nat /\
  schedule_of 3 [1; 2; 0]%nat /\
  BenchmarkConcurrent demo_codec None "192.0.2.53" "example.org" (3000 * ms)
                      3 (goroutine_world caching_world) [2; 0; 1]%nat
  = BenchmarkConcurrent demo_codec None "192.0.2.53" "example.org" (3000 * ms)
                        3 (goroutine_world caching_world) [1; 2; 0]%nat.
Proof.
  assert (H1 : schedule_of 3 [2; 0; 1]%nat).
  { unfold schedule_of. change (seq 0 (Z.to_nat 3)) with [0; 1; 2]%nat.
    apply Permutation_sym.
    apply (Permutation_cons_app [2%nat] [1%nat] 0%nat).
    apply perm_swap. }
  assert (H2 : schedule_of 3 [1; 2; 0]%nat).
  { unfold schedule_of. change (seq 0 (Z.to_nat 3)) with [0; 1; 2]%nat.
    apply Permutation_sym.
    apply (Permutation_cons_app [1; 2]%nat [] 0%nat).
    rewrite app_nil_r. apply Permutation_refl. }
  split; [exact H1|]. split; [exact H2|].
  exact (BenchmarkConcurrent_schedule_independent demo_codec None
           "192.0.2.53" "example.org" (3000 * ms) 3
           (goroutine_world caching_world) _ _ H1 H2).
Defined.

Lemma ltb_shift (a x y : Z) : (a + x <? a + y) = (x <? y).
Proof. destruct (Z.ltb_spec (a + x) (a + y)), (Z.ltb_spec x y); lia. Qed.

Lemma sat64_shift (a x : Z) : sat64 (a + x - a) = sat64 x.
Proof. f_equal. lia. Qed.

(** Under the background context the outcome of a probe is a
    function of what the environment answers to this probe. *)
Lemma ProbeA_outcome (codec : Dns.Codec) (server qname : string)
    (timeout : Z) (w : World) :
  fst (ProbeA codec None server qname timeout w)
  = probe_outcome codec server qname timeout (env w (calls w)).
Proof.
  unfold ProbeA, probe_outcome. cbn [next_call env calls now trace].
  set (e := env w (calls w)).
  destruct (Dns.Pack codec _) as [err|wire]; [reflexivity|].
  unfold DialContext, under_deadline, min_deadline.
  cbn [now elapse emit].
  assert (forall x, (now w + pack_lat e + dial_lat e <? now w + pack_lat e + x)
                    = (dial_lat e <? x)) as Hd
    by (intros x; rewrite <- !Z.add_assoc, !ltb_shift; reflexivity).
  destruct (timeout =? 0) eqn:Hz; cbn [negb andb].
  - destruct (dial_res e) as [derr|[l rem]]; [reflexivity|].
    unfold exchange, SetDeadline, conn_Write, conn_Read, under_deadline.
    cbn [now elapse emit conn_deadline fst snd].
    rewrite ltb_shift.
    destruct (write_lat e <? timeout); cbn [negb]; [|reflexivity].
    destruct (write_res e); [reflexivity|].
    cbn [now elapse emit conn_deadline fst snd].
    rewrite <- Z.add_assoc, ltb_shift.
    destruct (write_lat e + read_lat e <? timeout); cbn [negb];
      [|reflexivity].
    destruct (read_res e) as [rerr|dgram]; [reflexivity|].
    destruct (Dns.Unpack codec _) as [uerr|resp]; [reflexivity|].
    cbn [fst conn_local conn_remote]. unfold Since.
    cbn [now elapse emit conn_Close next_call].
    f_equal. f_equal. f_equal; try (f_equal; lia).
    f_equal. f_equal; f_equal; lia.
  - rewrite Hd.
    destruct (dial_lat e <? timeout); cbn [negb]; [|reflexivity].
    destruct (dial_res e) as [derr|[l rem]]; [reflexivity|].
    unfold exchange, SetDeadline, conn_Write, conn_Read, under_deadline.
    cbn [now elapse emit conn_deadline fst snd].
    rewrite ltb_shift.
    destruct (write_lat e <? timeout); cbn [negb]; [|reflexivity].
    destruct (write_res e); [reflexivity|].
    cbn [now elapse emit conn_deadline fst snd].
    rewrite <- Z.add_assoc, ltb_shift.
    destruct (write_lat e + read_lat e <? timeout); cbn [negb];
      [|reflexivity].
    destruct (read_res e) as [rerr|dgram]; [reflexivity|].
    destruct (Dns.Unpack codec _) as [uerr|resp]; [reflexivity|].
    cbn [fst conn_local conn_remote]. unfold Since.
    cbn [now elapse emit conn_Close next_call].
    f_equal. f_equal. f_equal; try (f_equal; lia).
    f_equal. f_equal; f_equal; lia.
Qed.

Lemma under_deadline_frame {T : Type} (op : string) (dl : option Z) (lat : Z)
    (res r : error + T) (w w' : World) :
  under_deadline op dl lat res w = (r, w') ->
  calls w' = calls w /\ env w' = env w.
Proof.
  intros H. apply under_deadline_spec in H. tauto.
Qed.

(** A probe is one call on the environment, whatever its outcome. *)
Lemma ProbeA_frame (codec : Dns.Codec) (ctx : Context)
    (server qname : string) (timeout : Z) (w : World) :
  calls (snd (ProbeA codec ctx server qname timeout w)) = S (calls w) /\
  env (snd (ProbeA codec ctx server qname timeout w)) = env w.
Proof.
  unfold ProbeA. cbn [next_call env calls now trace].
  destruct (Dns.Pack codec _) as [err|wire]; [split; reflexivity|].
  destruct (DialContext _ _ _ _ _ _) as [[err|conn] w1] eqn:HD;
    unfold DialContext in HD; apply under_deadline_frame in HD;
    cbn [calls env emit elapse next_call] in HD; destruct HD as [Hc1 He1];
    [cbn [snd]; split; assumption|].
  unfold exchange, SetDeadline.
  destruct (conn_Write _ _ _ _) as [[err|nw] w2] eqn:HW;
    unfold conn_Write in HW; apply under_deadline_frame in HW;
    cbn [calls env emit] in HW; destruct HW as [Hc2 He2];
    [cbn [snd conn_Close calls env emit]; split; congruence|].
  destruct (conn_Read _ _ _ _) as [[err|got] w3] eqn:HR;
    unfold conn_Read in HR; apply under_deadline_frame in HR;
    cbn [calls env emit] in HR; destruct HR as [Hc3 He3];
    [cbn [snd conn_Close calls env emit]; split; congruence|].
  destruct (Dns.Unpack codec got);
    cbn [snd conn_Close calls env emit elapse]; split; congruence.
Qed.

(** The serial loop starts exactly [k] probes and leaves the
    environment as it is. *)
Lemma serial_loop_frame (codec : Dns.Codec) (ctx : Context)
    (server qname : string) (timeout : Z) (k : nat) (a : Acc) (w : World) :
  calls (snd (serial_loop codec ctx server qname timeout k a w))
  = (calls w + k)%nat /\
  env (snd (serial_loop codec ctx server qname timeout k a w)) = env w.
Proof.
  revert a w. induction k as [|k IH]; intros a w; cbn [serial_loop snd].
  - split; [lia | reflexivity].
  - pose proof (ProbeA_frame codec ctx server qname timeout w) as [Hc He].
    destruct (ProbeA codec ctx server qname timeout w) as [[e|r] w1];
      cbn [snd] in Hc, He;
      match goal with |- context [serial_loop _ _ _ _ _ k ?a' w1] =>
        destruct (IH a' w1) as [-> ->] end;
      split; [lia | assumption | lia | assumption].
Qed.

(** The serial benchmark starts exactly [n] probes (none for a
    negative [n]), whatever their outcomes: a failed probe does not
    end the run, and each probe gets the next answer of the
    environment. *)
Theorem BenchmarkSerial_probe_count (codec : Dns.Codec) (ctx : Context)
    (server qname : string) (timeout n : Z) (w : World) :
  let run := BenchmarkSerial codec ctx server qname timeout n w in
  calls (snd run) = (calls w + Z.to_nat n)%nat /\
  env (snd run) = env w /\
  List.length (serial_outcomes codec ctx server qname timeout (Z.to_nat n) w)
  = Z.to_nat n.
Proof.
  cbv zeta. unfold BenchmarkSerial.
  pose proof (serial_loop_frame codec ctx server qname timeout (Z.to_nat n)
                acc0 w) as [Hc He].
  destruct (serial_loop _ _ _ _ _ _ _ _) as [a w1]. cbn [snd] in *.
  repeat split; try assumption. apply length_serial_outcomes.
Qed.

(** Under the background context the outcomes of a serial run are
    the outcomes of its probes' environments, in order. *)
Lemma serial_outcomes_map (codec : Dns.Codec) (server qname : string)
    (timeout : Z) (k : nat) (w : World) :
  serial_outcomes codec None server qname timeout k w
  = map (fun i => probe_outcome codec server qname timeout
                                (env w (calls w + i)))
        (seq 0 k).
Proof.
  revert w. induction k as [|k IH]; intros w; [reflexivity|].
  cbn [serial_outcomes seq map].
  pose proof (ProbeA_frame codec None server qname timeout w) as [Hc He].
  pose proof (ProbeA_outcome codec server qname timeout w) as Ho.
  destruct (ProbeA codec None server qname timeout w) as [r w1].
  cbn [fst snd] in *. rewrite Ho, Nat.add_0_r. f_equal.
  rewrite IH, <- seq_shift, map_map, He, Hc.
  apply map_ext. intros i. do 2 f_equal. lia.
Qed.

(** When the network answers the goroutines as it answers the probes
    of a serial run (goroutine [i] as the [i]-th probe), a concurrent
    run under the background context reports what the serial run
    reports, whatever the order of delivery. *)
Theorem BenchmarkConcurrent_as_serial (codec : Dns.Codec)
    (server qname : string) (timeout n : Z) (w : World) (sched : list nat) :
  0 <= n ->
  schedule_of n sched ->
  BenchmarkConcurrent codec None server qname timeout n (goroutine_world w)
                      sched
  = Some (fst (BenchmarkSerial codec None server qname timeout n w)).
Proof.
  intros Hn Hs.
  rewrite BenchmarkConcurrent_reduce by exact Hn.
  rewrite BenchmarkSerial_reduce. cbv zeta.
  assert (drain (map sent (concurrent_outcomes codec None server qname
                             timeout (goroutine_world w) sched)) acc0
          = drain (map sent (serial_outcomes codec None server qname timeout
                               (Z.to_nat n) w)) acc0) as ->; [|reflexivity].
  rewrite serial_outcomes_map. unfold concurrent_outcomes.
  rewrite (map_ext _ _ (fun i => ProbeA_outcome codec server qname timeout
                                                (goroutine_world w i))).
  apply drain_Permutation. apply Permutation_map.
  cbn [goroutine_world env calls].
  apply (Permutation_map
           (fun i => probe_outcome codec server qname timeout
                                   (env w (calls w + i)))).
  exact Hs.
Qed.

Lemma BenchmarkConcurrent_as_serial_witness :
  0 <= 3 /\
  schedule_of 3 (rev (seq 0 3)) /\
  BenchmarkConcurrent demo_codec None "192.0.2.53" "example.org" (3000 * ms)
                      3 (goroutine_world caching_world) (rev (seq 0 3))
  = Some (fst (BenchmarkSerial demo_codec None "192.0.2.53" "example.org"
                               (3000 * ms) 3 caching_world)).
Proof.
  assert (Hn : 0 <= 3) by lia.
  assert (Hs : schedule_of 3 (rev (seq 0 3)))
    by (apply Permutation_sym, Permutation_rev).
  split; [exact Hn|]. split; [exact Hs|].
  exact (BenchmarkConcurrent_as_serial demo_codec "192.0.2.53" "example.org"
           (3000 * ms) 3 caching_world _ Hn Hs).
Defined.

(** The timings of a result are in the range of a [time.Duration]. *)
Lemma ProbeA_timings_range (codec : Dns.Codec) (ctx : Context)
    (server qname : string) (timeout : Z) (w w' : World) (r : Result)
    (p : Phase) :
  ProbeA codec ctx server qname timeout w = (inr r, w') ->
  in_int64 (phase p (ResultTimings r)).
Proof.
  intros Hrun. apply ProbeA_success in Hrun.
  destruct Hrun as (wire & _ & _ & _ & -> & _).
  destruct p; cbn [phase Total Dial Pack Write Read Unpack RTTApprox];
    auto using sat64_range, wrap64_range.
Qed.

(** A serial benchmark of one attempt reports the probe itself: on
    success the averaged timings are the timings of the result, on
    failure they are zero and the failure is counted. *)
Theorem BenchmarkSerial_single (codec : Dns.Codec) (ctx : Context)
    (server qname : string) (timeout : Z) (w : World) :
  let run := ProbeA codec ctx server qname timeout w in
  BenchmarkSerial codec ctx server qname timeout 1 w
  = (match fst run with
     | inr r => mkBenchmark 1 1 0 (ResultTimings r)
     | inl _ => mkBenchmark 1 0 1 zeroTimings
     end, snd run).
Proof.
  cbv zeta. unfold BenchmarkSerial.
  change (Z.to_nat 1) with 1%nat. cbn [serial_loop].
  destruct (ProbeA codec ctx server qname timeout w) as [[e|r] w1] eqn:Hrun;
    cbn [fst snd acc0 acc_sum acc_ok acc_fail]; [reflexivity|].
  f_equal. f_equal. apply Timings_ext. intros p.
  rewrite phase_avg. cbn [Z.leb Z.add Z.compare]. rewrite Z.quot_1_r.
  rewrite phase_add.
  replace (phase p zeroTimings) with 0 by (destruct p; reflexivity).
  apply wrap64_id. exact (ProbeA_timings_range _ _ _ _ _ _ _ _ p Hrun).
Qed.

Lemma sumZ_bounds (xs : list Z) (lo hi : Z) :
  Forall (fun x => lo <= x <= hi) xs ->
  lo * len xs <= sumZ xs <= hi * len xs.
Proof.
  unfold len. induction 1 as [|x xs Hx _ IH];
    cbn [sumZ fold_right List.length]; [lia|].
  fold (sumZ xs). nia.
Qed.

(** Each averaged phase lies between the smallest and the largest of
    the successful durations it averages. *)
Theorem BenchmarkSerial_avg_between (codec : Dns.Codec) (ctx : Context)
    (server qname : string) (timeout n : Z) (w : World) (p : Phase)
    (lo hi : Z) :
  let outs := serial_outcomes codec ctx server qname timeout (Z.to_nat n) w in
  let xs := map (phase p) (successes outs) in
  let b := fst (BenchmarkSerial codec ctx server qname timeout n w) in
  0 <= lo ->
  Forall (fun x => lo <= x <= hi) xs ->
  sumZ xs <= maxInt64 ->
  0 < len xs ->
  lo <= phase p (Avg b) <= hi.
Proof.
  intros outs xs b Hlo Hxs Hfit Hk. subst b xs outs.
  rewrite BenchmarkSerial_reduce. cbn [Avg].
  assert (Forall (fun x => 0 <= x)
            (map (phase p)
               (successes (serial_outcomes codec ctx server qname timeout
                             (Z.to_nat n) w)))) as Hpos
    by (eapply Forall_impl; [|exact Hxs]; cbv beta; intros; lia).
  destruct (drain_avg p _ Hpos Hfit) as (_ & _ & Havg).
  rewrite (Havg Hk), Qfloor_mean by exact Hk.
  pose proof (sumZ_bounds _ lo hi Hxs) as [Hl Hh].
  split.
  - apply Z.div_le_lower_bound; lia.
  - apply Z.div_le_upper_bound; lia.
Qed.

Lemma BenchmarkSerial_avg_between_witness :
  let xs := [1000 * ms; 500 * ms; 250 * ms] in
  let b := fst (BenchmarkSerial demo_codec None "192.0.2.53" "example.org"
                                (3000 * ms) 3 caching_world) in
  0 <= 250 * ms /\
  Forall (fun x => 250 * ms <= x <= 1000 * ms) xs /\
  sumZ xs <= maxInt64 /\
  0 < len xs /\
  250 * ms <= Total (Avg b) <= 1000 * ms.
Proof.
  cbv zeta.
  assert (H0 : 0 <= 250 * ms) by (unfold ms; lia).
  assert (Hxs : Forall (fun x => 250 * ms <= x <= 1000 * ms)
                       [1000 * ms; 500 * ms; 250 * ms])
    by (repeat constructor; unfold ms; lia).
  assert (Hfit : sumZ [1000 * ms; 500 * ms; 250 * ms] <= maxInt64)
    by (unfold sumZ, maxInt64, ms; cbn [fold_right]; lia).
  assert (Hk : 0 < len [1000 * ms; 500 * ms; 250 * ms])
    by (unfold len; cbn [List.length]; lia).
  split; [exact H0|]. split; [exact Hxs|]. split; [exact Hfit|].
  split; [exact Hk|].
  exact (BenchmarkSerial_avg_between demo_codec None "192.0.2.53"
           "example.org" (3000 * ms) 3 caching_world PTotal
           (250 * ms) (1000 * ms) H0 Hxs Hfit Hk).
Defined.

Lemma serial_successes_Forall (P : Timings -> Prop) (codec : Dns.Codec)
    (ctx : Context) (server qname : string) (timeout : Z) (w : World) :
  (forall w1 r w1',
      env w1 = env w ->
      ProbeA codec ctx server qname timeout w1 = (inr r, w1') ->
      P (ResultTimings r)) ->
  forall k w1,
    env w1 = env w ->
    Forall P (successes (serial_outcomes codec ctx server qname timeout k w1)).
Proof.
  intros HP. induction k as [|k IH]; intros w1 He; cbn [serial_outcomes].
  - constructor.
  - pose proof (ProbeA_frame codec ctx server qname timeout w1) as [_ He1].
    destruct (ProbeA codec ctx server qname timeout w1) as [[e|r] w2] eqn:Hrun;
      cbn [snd successes] in *.
    + apply IH. congruence.
    + constructor; [eapply HP; eassumption | apply IH; congruence].
Qed.

Lemma sumZ_map_add (f g h : Timings -> Z) (l : list Timings) :
  Forall (fun x => h x = f x + g x) l ->
  sumZ (map h l) = sumZ (map f l) + sumZ (map g l).
Proof.
  induction 1 as [|x l Hx _ IH]; cbn [map sumZ fold_right]; [reflexivity|].
  fold (sumZ (map h l)) (sumZ (map f l)) (sumZ (map g l)). lia.
Qed.

Lemma div_add_bounds (a b k : Z) :
  0 < k -> a / k + b / k <= (a + b) / k <= a / k + b / k + 1.
Proof.
  intros Hk.
  pose proof (Z.div_mod a k ltac:(lia)). pose proof (Z.mod_pos_bound a k Hk).
  pose proof (Z.div_mod b k ltac:(lia)). pose proof (Z.mod_pos_bound b k Hk).
  replace (a + b) with ((a / k + b / k) * k + (a mod k + b mod k)) by lia.
  rewrite Z.div_add_l by lia.
  assert (0 <= (a mod k + b mod k) / k <= 1); [|lia].
  split; [apply Z.div_pos; lia|].
  assert ((a mod k + b mod k) / k < 2); [|lia].
  apply Z.div_lt_upper_bound; lia.
Qed.

(** Averaging rounds each phase down on its own: the averaged
    [RTTApprox] of a serial run is the averaged [Write] plus the
    averaged [Read], or one nanosecond more. *)
Theorem BenchmarkSerial_rtt_rounding (codec : Dns.Codec) (ctx : Context)
    (server qname : string) (timeout n : Z) (w : World) :
  (forall i, clock_monotonic (env w i)) ->
  in_int64 timeout ->
  n * timeout <= maxInt64 ->
  let b := fst (BenchmarkSerial codec ctx server qname timeout n w) in
  Write (Avg b) + Read (Avg b) <= RTTApprox (Avg b)
  /\ RTTApprox (Avg b) <= Write (Avg b) + Read (Avg b) + 1.
Proof.
  intros Hmono Ht Hfit. cbv zeta.
  rewrite BenchmarkSerial_reduce. cbn [Avg].
  set (outs := serial_outcomes codec ctx server qname timeout (Z.to_nat n) w).
  set (S := successes outs).
  assert (Forall (fun x => 0 <= Write x /\ 0 <= Read x /\
                           RTTApprox x = Write x + Read x /\
                           RTTApprox x < timeout) S) as HS.
  { subst S outs.
    apply (serial_successes_Forall _ codec ctx server qname timeout w);
      [|reflexivity].
    intros w1 r w1' He Hrun. apply ProbeA_success in Hrun.
    destruct Hrun as (wire & _ & _ & Hwr & -> & _).
    cbn [Write Read RTTApprox].
    destruct (Hmono (calls w1)) as (_ & _ & Hw & Hr & _).
    rewrite He in Hwr |- *.
    unfold in_int64, minInt64, maxInt64 in Ht.
    rewrite wrap64_id;
      rewrite !sat64_id; unfold in_int64, minInt64, maxInt64; lia. }
  assert (len S <= Z.max n 0) as Hlen.
  { pose proof (successes_failures_length outs) as Hsf.
    assert (len outs = Z.of_nat (Z.to_nat n)) as Hl
      by (unfold len; subst outs; now rewrite length_serial_outcomes).
    unfold len in *. fold S in Hsf. lia. }
  destruct (Z.eq_dec (len S) 0) as [H0|Hk].
  { assert (S = []) as HS0 by (unfold len in H0; destruct S; cbn in *;
                               [reflexivity | lia]).
    destruct (drain_counts outs acc0) as [Hok _]. fold S in Hok.
    rewrite Hok, HS0. cbn. lia. }
  assert (0 < len S) as Hpos by (unfold len in *; lia).
  assert (forall f : Timings -> Z,
             Forall (fun x => 0 <= f x <= timeout) S ->
             sumZ (map f S) <= maxInt64) as Hsum.
  { intros f Hf.
    assert (Forall (fun x => 0 <= x <= timeout) (map f S)) as Hf'
      by (apply Forall_map; exact Hf).
    pose proof (sumZ_bounds _ _ _ Hf') as [_ Hh].
    unfold len in Hh. rewrite length_map in Hh. fold (len S) in Hh.
    assert (0 < timeout).
    { destruct S as [|x S']; [unfold len in Hpos; cbn in Hpos; lia|].
      inversion HS; subst. lia. }
    nia. }
  assert (forall p (f : Timings -> Z),
             (forall x, phase p x = f x) ->
             Forall (fun x => 0 <= f x <= timeout) S ->
             phase p (avg (acc_sum (drain (map sent outs) acc0))
                          (acc_ok (drain (map sent outs) acc0)))
             = sumZ (map f S) / len S) as Havg.
  { intros p f Hpf Hf.
    assert (map (phase p) S = map f S) as Hm by (apply map_ext; exact Hpf).
    assert (Forall (fun x => 0 <= x) (map (phase p) (successes outs))) as Hnn.
    { fold S. rewrite Hm. apply Forall_map.
      eapply Forall_impl; [|exact Hf]. cbv beta. intros; lia. }
    assert (sumZ (map (phase p) (successes outs)) <= maxInt64) as Hfit'
      by (fold S; rewrite Hm; apply Hsum; exact Hf).
    destruct (drain_avg p outs Hnn Hfit') as (_ & _ & Hq).
    fold S in Hq. rewrite Hm in Hq. unfold len in Hq.
    rewrite length_map in Hq. fold (len S) in Hq.
    rewrite (Hq Hpos). unfold mean, len. rewrite length_map.
    fold (len S). 
    pose proof (Qfloor_mean (map f S)) as HQ. unfold mean, len in HQ.
    rewrite length_map in HQ. fold (len S) in HQ. apply HQ. exact Hpos. }
  pose proof (Havg PWrite Write (fun _ => eq_refl)
                ltac:(eapply Forall_impl; [|exact HS]; cbv beta; lia)) as HW.
  pose proof (Havg PRead Read (fun _ => eq_refl)
                ltac:(eapply Forall_impl; [|exact HS]; cbv beta; lia)) as HR.
  pose proof (Havg PRTTApprox RTTApprox (fun _ => eq_refl)
                ltac:(eapply Forall_impl; [|exact HS]; cbv beta; lia)) as HT.
  cbn [phase] in HW, HR, HT. rewrite HW, HR, HT.
  rewrite (sumZ_map_add Write Read RTTApprox S)
    by (eapply Forall_impl; [|exact HS]; cbv beta; tauto).
  apply div_add_bounds. exact Hpos.
Qed.

Lemma BenchmarkSerial_rtt_rounding_witness :
  let b := fst (BenchmarkSerial demo_codec None "192.0.2.53" "example.org"
                                (3000 * ms) 2 uneven_world) in
  (forall i, clock_monotonic (env uneven_world i)) /\
  in_int64 (3000 * ms) /\
  2 * (3000 * ms) <= maxInt64 /\
  Write (Avg b) = 0 /\ Read (Avg b) = 0 /\ RTTApprox (Avg b) = 1 /\
  Write (Avg b) + Read (Avg b) <= RTTApprox (Avg b) /\
  RTTApprox (Avg b) <= Write (Avg b) + Read (Avg b) + 1.
Proof.
  cbv zeta.
  assert (Hm : forall i, clock_monotonic (env uneven_world i)).
  { intros [|[|[|i]]]; unfold clock_monotonic; cbn; unfold ms; lia. }
  assert (Ht : in_int64 (3000 * ms))
    by (unfold in_int64, minInt64, maxInt64, ms; lia).
  assert (Hf : 2 * (3000 * ms) <= maxInt64) by (unfold maxInt64, ms; lia).
  split; [exact Hm|]. split; [exact Ht|]. split; [exact Hf|].
  split; [vm_compute; reflexivity|]. split; [vm_compute; reflexivity|].
  split; [vm_compute; reflexivity|].
  exact (BenchmarkSerial_rtt_rounding demo_codec None "192.0.2.53"
           "example.org" (3000 * ms) 2 uneven_world Hm Ht Hf).
Defined.

(** ** Host and port: splitting, joining, normalising *)

Lemma str_length_app (a b : string) :
  String.length (a ++ b) = (String.length a + String.length b)%nat.
Proof. induction a; cbn; congruence. Qed.

Lemma str_app_assoc (a b c : string) : ((a ++ b) ++ c = a ++ (b ++ c))%string.
Proof. induction a; cbn; congruence. Qed.

Lemma str_app_nil_r (a : string) : (a ++ "")%string = a.
Proof. induction a; cbn; congruence. Qed.

Lemma substring_0_all (s : string) : String.substring 0 (String.length s) s = s.
Proof. induction s; cbn; congruence. Qed.

Lemma substring_0_app (a b : string) :
  String.substring 0 (String.length a) (a ++ b) = a.
Proof. induction a; cbn; [destruct b; reflexivity | congruence]. Qed.

Lemma substring_skip_app (a b : string) (n m : nat) :
  String.substring (String.length a + n) m (a ++ b) = String.substring n m b.
Proof. induction a; cbn; auto. Qed.

Lemma slice_from_0 (s : string) : Strings.slice_from s 0 = s.
Proof.
  unfold Strings.slice_from. rewrite Nat.sub_0_r. apply substring_0_all.
Qed.

Lemma slice_from_app (a b : string) :
  Strings.slice_from (a ++ b) (String.length a) = b.
Proof.
  unfold Strings.slice_from. rewrite str_length_app.
  replace (String.length a + String.length b - String.length a)%nat
    with (String.length b) by lia.
  rewrite <- (Nat.add_0_r (String.length a)) at 1.
  rewrite substring_skip_app. apply substring_0_all.
Qed.

Lemma slice_0_app (a b : string) :
  Strings.slice (a ++ b) 0 (String.length a) = a.
Proof.
  unfold Strings.slice. rewrite Nat.sub_0_r. apply substring_0_app.
Qed.

Lemma has_byte_app (a b : string) (c : ascii) :
  Strings.has_byte (a ++ b) c = Strings.has_byte a c || Strings.has_byte b c.
Proof.
  unfold Strings.has_byte.
  induction a as [|x a IH]; cbn [append Strings.IndexByteString]; [reflexivity|].
  destruct (Ascii.eqb x c); [reflexivity|].
  destruct (Strings.IndexByteString (a ++ b) c),
           (Strings.IndexByteString a c); cbn in *; auto; discriminate.
Qed.

Lemma has_byte_cons (x : ascii) (s : string) (c : ascii) :
  Strings.has_byte (String x s) c = Ascii.eqb x c || Strings.has_byte s c.
Proof.
  unfold Strings.has_byte. cbn [Strings.IndexByteString].
  destruct (Ascii.eqb x c); [reflexivity|].
  destruct (Strings.IndexByteString s c); reflexivity.
Qed.

Lemma IndexByteString_app (a b : string) (c : ascii) :
  Strings.has_byte a c = false ->
  Strings.IndexByteString (a ++ String c b) c = Some (String.length a).
Proof.
  induction a as [|x a IH]; cbn [append Strings.IndexByteString String.length].
  - rewrite Ascii.eqb_refl. reflexivity.
  - rewrite has_byte_cons. intros H. apply orb_false_iff in H.
    destruct H as [-> H]. rewrite (IH H). reflexivity.
Qed.

Lemma LastIndexByteString_none (s : string) (c : ascii) :
  Strings.LastIndexByteString s c = None <-> Strings.has_byte s c = false.
Proof.
  induction s as [|x s IH]; cbn [Strings.LastIndexByteString];
    [unfold Strings.has_byte; cbn; tauto|].
  rewrite has_byte_cons.
  destruct (Strings.LastIndexByteString s c) eqn:E.
  - split; [discriminate|]. intros H. apply orb_false_iff in H.
    destruct H as [_ H]. apply IH in H. discriminate.
  - destruct (Ascii.eqb x c); cbn [orb].
    + split; discriminate.
    + rewrite <- IH. tauto.
Qed.

Lemma LastIndexByteString_app (a b : string) (c : ascii) :
  Strings.has_byte b c = false ->
  Strings.LastIndexByteString (a ++ String c b) c = Some (String.length a).
Proof.
  intros Hb. apply LastIndexByteString_none in Hb.
  induction a as [|x a IH]; cbn [append Strings.LastIndexByteString
                                 String.length].
  - rewrite Hb, Ascii.eqb_refl. reflexivity.
  - rewrite IH. reflexivity.
Qed.

(** A string splits at its last occurrence of a byte. *)
Lemma LastIndexByteString_some (s : string) (c : ascii) (i : nat) :
  Strings.LastIndexByteString s c = Some i ->
  exists a b, s = (a ++ String c b)%string /\ String.length a = i /\
              Strings.has_byte b c = false.
Proof.
  revert i. induction s as [|x s IH]; intros i;
    cbn [Strings.LastIndexByteString]; [discriminate|].
  destruct (Strings.LastIndexByteString s c) as [j|] eqn:E.
  - intros [= <-]. destruct (IH j eq_refl) as (a & b & -> & Hl & Hb).
    exists (String x a), b. cbn. auto.
  - destruct (Ascii.eqb_spec x c) as [->|]; [|discriminate].
    intros [= <-]. exists EmptyString, s. cbn.
    apply LastIndexByteString_none in E. auto.
Qed.

Lemma count_byte_app (a b : string) (c : ascii) :
  count_byte (a ++ b) c = (count_byte a c + count_byte b c)%nat.
Proof. induction a; cbn; lia. Qed.

Lemma count_byte_0 (s : string) (c : ascii) :
  count_byte s c = 0%nat <-> Strings.has_byte s c = false.
Proof.
  induction s as [|x s IH]; [unfold Strings.has_byte; cbn; tauto|].
  rewrite has_byte_cons. cbn [count_byte].
  destruct (Ascii.eqb x c); cbn [orb].
  - split; [lia | discriminate].
  - rewrite <- IH. cbn. tauto.
Qed.

Lemma bracket_free_spec (s : string) :
  bracket_free s = true <->
  Strings.has_byte s "[" = false /\ Strings.has_byte s "]" = false.
Proof.
  unfold bracket_free. rewrite andb_true_iff, !negb_true_iff. tauto.
Qed.

Lemma bracket_free_get0 (s : string) :
  Strings.has_byte s "[" = false -> String.get 0 s <> Some "["%char.
Proof.
  destruct s as [|x s]; cbn [String.get]; [discriminate|].
  rewrite has_byte_cons. intros H. apply orb_false_iff in H.
  destruct H as [H _]. apply Ascii.eqb_neq in H. congruence.
Qed.

(** Splitting a string without brackets: the port is what follows
    the only colon. *)
Lemma SplitHostPort_bracket_free (s : string) :
  bracket_free s = true ->
  Net.SplitHostPort s =
  match Strings.LastIndexByteString s ":" with
  | None => inl (AddrError Net.missingPort s)
  | Some i =>
      if Strings.has_byte (Strings.slice s 0 i) ":"
      then inl (AddrError Net.tooManyColons s)
      else inr (Strings.slice s 0 i, Strings.slice_from s (S i))
  end.
Proof.
  intros Hb. apply bracket_free_spec in Hb. destruct Hb as [Ho Hc].
  unfold Net.SplitHostPort.
  destruct (Strings.LastIndexByteString s ":") as [i|]; [|reflexivity].
  pose proof (bracket_free_get0 s Ho) as Hg.
  rewrite slice_from_0, Ho, Hc.
  destruct (String.get 0 s) as [c|]; [|reflexivity].
  destruct c as [[] [] [] [] [] [] [] []]; try reflexivity.
  congruence.
Qed.

Lemma has_byte_true_decompose (s : string) (c : ascii) :
  Strings.has_byte s c = true ->
  exists a b, s = (a ++ String c b)%string /\ Strings.has_byte b c = false /\
              Strings.LastIndexByteString s c = Some (String.length a).
Proof.
  intros H.
  destruct (Strings.LastIndexByteString s c) as [i|] eqn:E.
  - destruct (LastIndexByteString_some s c i E) as (a & b & -> & <- & Hb).
    eauto.
  - apply LastIndexByteString_none in E. congruence.
Qed.

Lemma slice_from_after (a b : string) (c : ascii) :
  Strings.slice_from (a ++ String c b) (S (String.length a)) = b.
Proof.
  replace (a ++ String c b)%string with ((a ++ String c "") ++ b)%string
    by (rewrite str_app_assoc; reflexivity).
  replace (S (String.length a)) with (String.length (a ++ String c ""))
    by (rewrite str_length_app; cbn; lia).
  apply slice_from_app.
Qed.

(** Splitting undoes joining, for a host without brackets and a port
    without colon or bracket. *)
Lemma SplitHostPort_JoinHostPort (h p : string) :
  bracket_free h = true ->
  bracket_free p = true ->
  Strings.has_byte p ":" = false ->
  Net.SplitHostPort (Net.JoinHostPort h p) = inr (h, p).
Proof.
  intros Hh Hp Hpc. unfold Net.JoinHostPort.
  pose proof (proj1 (bracket_free_spec h) Hh) as [Hho Hhc].
  pose proof (proj1 (bracket_free_spec p) Hp) as [Hpo Hpcl].
  destruct (Strings.has_byte h ":") eqn:Hcolon.
  - (* a literal with colons, bracketed *)
    unfold Net.SplitHostPort.
    replace ("[" ++ h ++ "]:" ++ p)%string
      with (("[" ++ h ++ "]") ++ String ":" p)%string
      by (cbn; rewrite str_app_assoc; reflexivity).
    rewrite LastIndexByteString_app by exact Hpc.
    cbn [append String.get].
    replace (String "[" ((h ++ "]") ++ String ":" p))
      with (("[" ++ h) ++ String "]" (String ":" p))%string
      by (cbn; rewrite str_app_assoc; reflexivity).
    rewrite IndexByteString_app
      by (cbn [append]; rewrite has_byte_cons, Hhc; reflexivity).
    cbn [append String.length].
    replace (String.length (h ++ "]")) with (S (String.length h))
      by (rewrite str_length_app; cbn; lia).
    rewrite str_length_app. cbn [String.length].
    destruct (Nat.eqb_spec (S (S (String.length h)))
                (S (String.length h + S (S (String.length p)))));
      [lia|].
    rewrite Nat.eqb_refl.
    (* the three slices *)
    assert (Strings.slice (String "[" (h ++ String "]" (String ":" p))) 1
                          (S (String.length h)) = h) as ->.
    { unfold Strings.slice. cbn [String.substring].
      replace (S (String.length h) - 1)%nat with (String.length h) by lia.
      apply substring_0_app. }
    assert (Strings.slice_from (String "[" (h ++ String "]" (String ":" p))) 1
            = (h ++ String "]" (String ":" p))%string) as ->.
    { unfold Strings.slice_from. cbn [String.length String.substring].
      rewrite Nat.sub_succ, Nat.sub_0_r. apply substring_0_all. }
    rewrite has_byte_app, Hho, !has_byte_cons, Hpo. cbn [orb Ascii.eqb Bool.eqb].
    change (String "[" (h ++ String "]" (String ":" p)))
      with (("[" ++ h) ++ String "]" (String ":" p))%string.
    replace (S (S (String.length h))) with (S (String.length ("[" ++ h)))
      by (cbn; lia).
    rewrite slice_from_after, has_byte_cons, Hpcl. cbn [orb Ascii.eqb Bool.eqb].
    replace (("[" ++ h) ++ String "]" (String ":" p))%string
      with (("[" ++ h ++ "]") ++ String ":" p)%string
      by (cbn; rewrite str_app_assoc; reflexivity).
    replace (S (S (String.length ("[" ++ h))))
      with (S (String.length ("[" ++ h ++ "]")))
      by (cbn; rewrite str_length_app; cbn; lia).
    rewrite slice_from_after. reflexivity.
  - (* a plain host *)
    assert (bracket_free (h ++ ":" ++ p) = true) as Hb.
    { apply bracket_free_spec.
      rewrite !has_byte_app, Hho, Hhc, Hpo, Hpcl. split; reflexivity. }
    rewrite (SplitHostPort_bracket_free _ Hb).
    change (h ++ ":" ++ p)%string with (h ++ String ":" p)%string.
    rewrite LastIndexByteString_app by exact Hpc.
    rewrite slice_0_app, Hcolon, slice_from_after. reflexivity.
Qed.

(** What normalising does to a string without brackets goes by its
    colons: none, and [":53"] is appended; one, and the string is
    taken for host and port and kept (also when the host or the port
    is empty); two or more, and it is taken for an IPv6 literal,
    bracketed and given port 53. *)
Theorem normalizeServer_by_colons (s : string) :
  bracket_free s = true ->
  normalizeServer s =
  match count_byte s ":" with
  | 0%nat => (s ++ ":53")%string
  | 1%nat => s
  | _ => ("[" ++ s ++ "]:53")%string
  end.
Proof.
  intros Hb. unfold normalizeServer.
  rewrite Contains_colon_has_byte.
  destruct (Strings.has_byte s ":") eqn:Hc.
  - rewrite (SplitHostPort_bracket_free s Hb).
    destruct (has_byte_true_decompose s ":" Hc) as (a & b & -> & Hbc & ->).
    rewrite slice_0_app, count_byte_app. cbn [count_byte Ascii.eqb Bool.eqb].
    apply count_byte_0 in Hbc. rewrite Hbc.
    destruct (Strings.has_byte a ":") eqn:Ha.
    + unfold Net.JoinHostPort. rewrite Hc.
      destruct (count_byte a ":") eqn:Hn;
        [apply count_byte_0 in Hn; congruence|].
      replace (S n + (1 + 0))%nat with (S (S n)) by lia. reflexivity.
    + apply count_byte_0 in Ha. rewrite Ha. reflexivity.
  - unfold Net.JoinHostPort. rewrite Hc.
    apply count_byte_0 in Hc. rewrite Hc. reflexivity.
Qed.

Lemma normalizeServer_by_colons_witness :
  bracket_free "::1" = true /\
  normalizeServer "::1" = "[::1]:53"%string /\
  bracket_free "1.1.1.1:" = true /\
  normalizeServer "1.1.1.1:" = "1.1.1.1:"%string.
Proof.
  assert (H1 : bracket_free "::1" = true) by reflexivity.
  assert (H2 : bracket_free "1.1.1.1:" = true) by reflexivity.
  split; [exact H1|]. split; [exact (normalizeServer_by_colons "::1" H1)|].
  split; [exact H2|]. exact (normalizeServer_by_colons "1.1.1.1:" H2).
Defined.

Lemma normalizeServer_splits (s : string) :
  bracket_free s = true ->
  exists h p, Net.SplitHostPort (normalizeServer s) = inr (h, p) /\
              Strings.has_byte (normalizeServer s) ":" = true.
Proof.
  intros Hb.
  destruct (normalizeServer_cases s) as [(hp & Hs & ->)|(e & Hs & ->)].
  - destruct hp as [h p]. exists h, p. split; [exact Hs|].
    unfold Net.SplitHostPort in Hs.
    destruct (Strings.LastIndexByteString s ":") eqn:E; [|discriminate].
    destruct (Strings.has_byte s ":") eqn:Hc; [reflexivity|].
    apply LastIndexByteString_none in Hc. congruence.
  - exists s, "53"%string. split.
    + apply SplitHostPort_JoinHostPort; [exact Hb | reflexivity..].
    + unfold Net.JoinHostPort.
      destruct (Strings.has_byte s ":");
        rewrite !has_byte_app, ?has_byte_cons; cbn;
        rewrite ?orb_true_r; reflexivity.
Qed.

(** Normalising a string without brackets gives a string that splits
    into host and port, and normalising again changes nothing. *)
Theorem normalizeServer_idempotent (s : string) :
  bracket_free s = true ->
  splits (normalizeServer s) = true /\
  normalizeServer (normalizeServer s) = normalizeServer s.
Proof.
  intros Hb. destruct (normalizeServer_splits s Hb) as (h & p & Hs & Hc).
  unfold splits. rewrite Hs. split; [reflexivity|].
  unfold normalizeServer at 1.
  rewrite Contains_colon_has_byte, Hc, Hs. reflexivity.
Qed.

Lemma normalizeServer_idempotent_witness :
  bracket_free "2001:db8::53" = true /\
  splits (normalizeServer "2001:db8::53") = true /\
  normalizeServer (normalizeServer "2001:db8::53")
  = normalizeServer "2001:db8::53".
Proof.
  assert (H : bracket_free "2001:db8::53" = true) by reflexivity.
  split; [exact H|]. exact (normalizeServer_idempotent "2001:db8::53" H).
Defined.

(** ** LooksLikeServer and the system default resolver *)

Lemma looks_like_split (ParseIP : string -> option string) (s : string) :
  Strings.has_byte s ":" = true ->
  splits s = true ->
  LooksLikeServer ParseIP s = true.
Proof.
  unfold LooksLikeServer, splits. intros Hc Hs.
  rewrite Contains_colon_has_byte, Hc.
  destruct (Net.SplitHostPort s); [discriminate | reflexivity].
Qed.

(** For a string without brackets the heuristic goes by the colons:
    with one colon it is a server; with none it is a server unless it
    is empty (and not an address); with two or more it is a server
    only if it parses as an IP address. *)
Theorem LooksLikeServer_by_colons (ParseIP : string -> option string)
    (s : string) :
  bracket_free s = true ->
  LooksLikeServer ParseIP s =
  match count_byte s ":" with
  | 0%nat => match ParseIP s with
             | Some _ => true
             | None => negb (s =? "")%string
             end
  | 1%nat => true
  | _ => match ParseIP s with Some _ => true | None => false end
  end.
Proof.
  intros Hb. pose proof (proj1 (bracket_free_spec s) Hb) as [Ho Hc].
  assert (Net.SplitHostPort (s ++ ":53") =
          if Strings.has_byte s ":"
          then inl (AddrError Net.tooManyColons (s ++ ":53"))
          else inr (s, "53"%string)) as Hheur.
  { assert (bracket_free (s ++ ":53") = true) as Hb'
      by (apply bracket_free_spec; rewrite !has_byte_app, Ho, Hc;
          split; reflexivity).
    rewrite (SplitHostPort_bracket_free _ Hb').
    change (s ++ ":53")%string with (s ++ String ":" "53")%string.
    rewrite LastIndexByteString_app by reflexivity.
    rewrite slice_0_app, slice_from_after. reflexivity. }
  unfold LooksLikeServer. rewrite Contains_colon_has_byte, Hheur.
  destruct (Strings.has_byte s ":") eqn:Hcolon.
  - rewrite (SplitHostPort_bracket_free s Hb).
    destruct (has_byte_true_decompose s ":" Hcolon) as (a & b & -> & Hbc & ->).
    rewrite slice_0_app, count_byte_app. cbn [count_byte Ascii.eqb Bool.eqb].
    apply count_byte_0 in Hbc. rewrite Hbc.
    destruct (Strings.has_byte a ":") eqn:Ha.
    + destruct (count_byte a ":") eqn:Hn;
        [apply count_byte_0 in Hn; congruence|].
      replace (S n + (1 + 0))%nat with (S (S n)) by lia. reflexivity.
    + apply count_byte_0 in Ha. rewrite Ha. reflexivity.
  - apply count_byte_0 in Hcolon. rewrite Hcolon.
    destruct (ParseIP s); [reflexivity|].
    cbn [String.eqb negb andb]. destruct (s =? "")%string; reflexivity.
Qed.

Lemma LooksLikeServer_by_colons_witness :
  bracket_free "google.com" = true /\
  LooksLikeServer demo_ParseIP "google.com" = true /\
  bracket_free "" = true /\
  LooksLikeServer demo_ParseIP "" = false /\
  bracket_free "a:b:c" = true /\
  LooksLikeServer demo_ParseIP "a:b:c" = false.
Proof.
  assert (H1 : bracket_free "google.com" = true) by reflexivity.
  assert (H2 : bracket_free "" = true) by reflexivity.
  assert (H3 : bracket_free "a:b:c" = true) by reflexivity.
  split; [exact H1|].
  split; [exact (LooksLikeServer_by_colons demo_ParseIP "google.com" H1)|].
  split; [exact H2|].
  split; [exact (LooksLikeServer_by_colons demo_ParseIP "" H2)|].
  split; [exact H3|].
  exact (LooksLikeServer_by_colons demo_ParseIP "a:b:c" H3).
Defined.

(** Whatever [normalizeServer] returns for a string without brackets
    looks like a server, whatever [net.ParseIP] says. *)
Theorem LooksLikeServer_normalized (ParseIP : string -> option string)
    (s : string) :
  bracket_free s = true ->
  LooksLikeServer ParseIP (normalizeServer s) = true.
Proof.
  intros Hb. destruct (normalizeServer_splits s Hb) as (h & p & Hs & Hc).
  apply looks_like_split; [exact Hc|]. unfold splits. rewrite Hs. reflexivity.
Qed.

Lemma LooksLikeServer_normalized_witness :
  bracket_free "" = true /\
  LooksLikeServer demo_ParseIP "" = false /\
  LooksLikeServer demo_ParseIP (normalizeServer "") = true.
Proof.
  assert (H : bracket_free "" = true) by reflexivity.
  split; [exact H|]. split; [reflexivity|].
  exact (LooksLikeServer_normalized demo_ParseIP "" H).
Defined.

(** A string that [normalizeServer] keeps as it is, brackets or not,
    looks like a server. *)
Theorem LooksLikeServer_fixed_point (ParseIP : string -> option string)
    (s : string) :
  normalizeServer s = s -> LooksLikeServer ParseIP s = true.
Proof.
  intros Hfix.
  destruct (normalizeServer_cases s) as [(hp & Hs & _)|(e & _ & Hj)].
  - apply looks_like_split; [|unfold splits; rewrite Hs; reflexivity].
    unfold Net.SplitHostPort in Hs.
    destruct (Strings.LastIndexByteString s ":") eqn:E; [|discriminate].
    destruct (Strings.has_byte s ":") eqn:Hc; [reflexivity|].
    apply LastIndexByteString_none in Hc. congruence.
  - exfalso. rewrite Hfix in Hj. apply (f_equal String.length) in Hj.
    unfold Net.JoinHostPort in Hj.
    destruct (Strings.has_byte s ":");
      repeat (rewrite str_length_app in Hj; cbn [String.length] in Hj); lia.
Qed.

Lemma LooksLikeServer_fixed_point_witness :
  normalizeServer "[::1]:5353" = "[::1]:5353"%string /\
  LooksLikeServer demo_ParseIP "[::1]:5353" = true.
Proof.
  assert (H : normalizeServer "[::1]:5353" = "[::1]:5353"%string)
    by reflexivity.
  split; [exact H|].
  exact (LooksLikeServer_fixed_point demo_ParseIP "[::1]:5353" H).
Defined.

(** When the first nameserver holds no bracket and the port no
    bracket or colon, the default resolver is a host and port as
    [normalizeServer] leaves them: it splits back into that
    nameserver and that port, normalising changes nothing, and it
    looks like a server. *)
Theorem SystemDefaultDNSServer_normalized (sys : System) (cfg : ClientConfig)
    (first : string) (rest : list string)
    (ParseIP : string -> option string) :
  stat_resolv_conf sys = true ->
  ClientConfigFromFile sys = inr cfg ->
  Servers cfg = first :: rest ->
  bracket_free first = true ->
  bracket_free (Port cfg) = true ->
  Strings.has_byte (Port cfg) ":" = false ->
  exists srv,
    SystemDefaultDNSServer sys = inr srv /\
    Net.SplitHostPort srv = inr (first, Port cfg) /\
    normalizeServer srv = srv /\
    LooksLikeServer ParseIP srv = true.
Proof.
  intros Hst Hcfg Hsv Hf Hp Hpc.
  exists (Net.JoinHostPort first (Port cfg)).
  pose proof (SplitHostPort_JoinHostPort first (Port cfg) Hf Hp Hpc) as Hsplit.
  assert (Strings.has_byte (Net.JoinHostPort first (Port cfg)) ":" = true)
    as Hc.
  { unfold Net.JoinHostPort.
    destruct (Strings.has_byte first ":");
      rewrite !has_byte_app, ?has_byte_cons; cbn;
      rewrite ?orb_true_r; reflexivity. }
  split; [|split; [exact Hsplit|split]].
  - unfold SystemDefaultDNSServer. rewrite Hst, Hcfg, Hsv. reflexivity.
  - unfold normalizeServer. rewrite Contains_colon_has_byte, Hc, Hsplit.
    reflexivity.
  - apply looks_like_split; [exact Hc|]. unfold splits. rewrite Hsplit.
    reflexivity.
Qed.

Lemma SystemDefaultDNSServer_normalized_witness :
  stat_resolv_conf demo_system = true /\
  bracket_free "2001:db8::53" = true /\
  bracket_free "53" = true /\
  Strings.has_byte "53" ":" = false /\
  exists srv,
    SystemDefaultDNSServer demo_system = inr srv /\
    Net.SplitHostPort srv = inr ("2001:db8::53", "53")%string /\
    normalizeServer srv = srv /\
    LooksLikeServer demo_ParseIP srv = true.
Proof.
  assert (H1 : stat_resolv_conf demo_system = true) by reflexivity.
  assert (H2 : bracket_free "2001:db8::53" = true) by reflexivity.
  assert (H3 : bracket_free "53" = true) by reflexivity.
  assert (H4 : Strings.has_byte "53" ":" = false) by reflexivity.
  split; [exact H1|]. split; [exact H2|]. split; [exact H3|].
  split; [exact H4|].
  exact (SystemDefaultDNSServer_normalized demo_system
           (mkClientConfig ["2001:db8::53"; "192.0.2.53"] "53")
           "2001:db8::53" ["192.0.2.53"%string] demo_ParseIP
           H1 eq_refl eq_refl H2 H3 H4).
Defined.

(** ** The generator: entropy, lengths and the spread of characters *)

Lemma fill_slice_needs out lo hi cs r out' r' :
  (lo < hi <= List.length out)%nat ->
  fill_slice out lo hi cs r = (None, out', r') ->
  (hi - lo <= List.length r)%nat.
Proof.
  intros Hb. unfold fill_slice, fillFromCharset, rand_Read.
  assert (List.length (firstn (hi - lo) (skipn lo out)) = (hi - lo)%nat) as Hl
    by (rewrite length_firstn, length_skipn; lia).
  rewrite Hl.
  destruct (Nat.eqb_spec (hi - lo) 0); [lia|].
  destruct (hi - lo <=? List.length r)%nat eqn:Hr; [|discriminate].
  intros _. apply Nat.leb_le. exact Hr.
Qed.

(** A label costs one byte of entropy per character. *)
Lemma randomLabel_entropy (n : Z) (r r' : Entropy) (s : string) :
  randomLabel n r = (inr s, r') -> (Z.to_nat n <= List.length r)%nat.
Proof.
  unfold randomLabel.
  destruct (n <? 1) eqn:H1; [discriminate|].
  destruct (n >? 63) eqn:H63; [discriminate|]. cbn [orb].
  apply Z.ltb_ge in H1. rewrite Z.gtb_ltb in H63. apply Z.ltb_ge in H63.
  set (k := Z.to_nat n). assert (1 <= k <= 63)%nat as Hk by lia.
  assert (List.length (repeat zero k) = k) as Hl0 by apply repeat_length.
  destruct (fill_slice (repeat zero k) 0 1 edge r) as [[[e1|] out1] r1] eqn:F1;
    [discriminate|].
  assert (List.length out1 = k) as Hl1
    by (eapply eq_trans;
        [eapply fill_slice_length; [|exact F1]; lia | exact Hl0]).
  assert (1 - 0 <= List.length r)%nat as N1
    by (eapply fill_slice_needs; [|exact F1]; lia).
  assert (r1 = skipn (1 - 0) r) as E1
    by (apply fill_slice_success in F1;
        [destruct F1 as (? & _ & _ & _ & ?); assumption | lia]).
  assert (List.length r1 = (List.length r - 1)%nat) as L1
    by (rewrite E1, length_skipn; lia).
  destruct (Z.gtb_spec n 2) as [H2|H2].
  - destruct (fill_slice out1 1 (k - 1) mid r1)
      as [[[e2|] out2] r2] eqn:F2; [discriminate|].
    assert (List.length out2 = k) as Hl2
      by (eapply eq_trans;
          [eapply fill_slice_length; [|exact F2]; lia | exact Hl1]).
    assert (k - 1 - 1 <= List.length r1)%nat as N2
      by (eapply fill_slice_needs; [|exact F2]; lia).
    assert (r2 = skipn (k - 1 - 1) r1) as E2
      by (apply fill_slice_success in F2;
          [destruct F2 as (? & _ & _ & _ & ?); assumption | lia]).
    assert (List.length r2 = (List.length r1 - (k - 1 - 1))%nat) as L2
      by (rewrite E2, length_skipn; lia).
    destruct (Z.gtb_spec n 1) as [H1'|H1']; [|lia].
    destruct (fill_slice out2 (k - 1) k edge r2)
      as [[[e3|] out3] r3] eqn:F3; [discriminate|].
    assert (k - (k - 1) <= List.length r2)%nat as N3
      by (eapply fill_slice_needs; [|exact F3]; lia).
    intros _. lia.
  - destruct (Z.gtb_spec n 1) as [H1'|H1'].
    + destruct (fill_slice out1 (k - 1) k edge r1)
        as [[[e3|] out3] r3] eqn:F3; [discriminate|].
      assert (k - (k - 1) <= List.length r1)%nat as N3
        by (eapply fill_slice_needs; [|exact F3]; lia).
      intros _. lia.
    + intros _. lia.
Qed.

(** For a length within bounds the only failure is the failure of
    the entropy source. *)
Lemma randomLabel_error (n : Z) (r r' : Entropy) (e : error) :
  1 <= n <= 63 ->
  randomLabel n r = (inl e, r') -> e = EntropyError.
Proof.
  intros Hn. unfold randomLabel.
  assert ((n <? 1) = false) as -> by (apply Z.ltb_ge; lia).
  assert ((n >? 63) = false) as ->
    by (rewrite Z.gtb_ltb; apply Z.ltb_ge; lia).
  cbn [orb].
  destruct (fill_slice _ 0 1 edge r) as [[[e1|] out1] r1] eqn:F1.
  { intros [= <- _]. eapply fill_slice_failure. exact F1. }
  destruct (n >? 2).
  - destruct (fill_slice out1 1 _ mid r1) as [[[e2|] out2] r2] eqn:F2.
    { intros [= <- _]. eapply fill_slice_failure. exact F2. }
    destruct (n >? 1); [|discriminate].
    destruct (fill_slice out2 _ _ edge r2) as [[[e3|] out3] r3] eqn:F3;
      [|discriminate].
    intros [= <- _]. eapply fill_slice_failure. exact F3.
  - destruct (n >? 1); [|discriminate].
    destruct (fill_slice out1 _ _ edge r1) as [[[e3|] out3] r3] eqn:F3;
      [|discriminate].
    intros [= <- _]. eapply fill_slice_failure. exact F3.
Qed.

(** For every length from 1 to 63 the label generator returns,
    given as many bytes of entropy, a label of that length whose
    first and last characters are in [[a-z0-9]] and whose other
    characters are in [[a-z0-9-]], and consumes exactly those
    bytes; given fewer, it fails with the error of the entropy
    source. *)
Theorem randomLabel_any_length (n : Z) (r : Entropy) :
  1 <= n <= 63 ->
  if (Z.to_nat n <=? List.length r)%nat then
    exists s,
      randomLabel n r = (inr s, skipn (Z.to_nat n) r) /\
      String.length s = Z.to_nat n /\
      label_ok s = true
  else fst (randomLabel n r) = inl EntropyError.
Proof.
  intros Hn. destruct (Nat.leb_spec (Z.to_nat n) (List.length r)) as [Hr|Hr].
  - destruct (randomLabel_succeeds n r Hn Hr) as [s Hs].
    exists s. split; [exact Hs|].
    apply randomLabel_shape in Hs. tauto.
  - destruct (randomLabel n r) as [[e|s] r'] eqn:Hrun; cbn [fst].
    + f_equal. eapply randomLabel_error; eassumption.
    + apply randomLabel_entropy in Hrun. lia.
Qed.

Lemma randomLabel_any_length_witness :
  1 <= 5 <= 63 /\
  (exists s,
      randomLabel 5 demo_entropy = (inr s, skipn 5 demo_entropy) /\
      String.length s = 5%nat /\ label_ok s = true) /\
  fst (randomLabel 5 (firstn 4 demo_entropy)) = inl EntropyError.
Proof.
  assert (H : 1 <= 5 <= 63) by lia.
  split; [exact H|]. split.
  - exact (randomLabel_any_length 5 demo_entropy H).
  - exact (randomLabel_any_length 5 (firstn 4 demo_entropy) H).
Defined.

(** What a run of the name generator costs and returns. *)
Lemma RandomDomain128WithCOM_run (r r' : Entropy) (x : error + string) :
  RandomDomain128WithCOM r = (x, r') ->
  match x with
  | inr name =>
      (123 <= List.length r)%nat /\ r' = skipn 123 r /\
      String.length name = 128%nat
  | inl e => (List.length r < 123)%nat /\ e = EntropyError
  end.
Proof.
  unfold RandomDomain128WithCOM.
  destruct (randomLabel 60 r) as [[e1|l1] r1] eqn:L1.
  { intros [= <- <-]. split.
    - destruct (Nat.lt_ge_cases (List.length r) 123) as [H|H]; [exact H|].
      destruct (randomLabel_succeeds 60 r) as [s Hs]; [lia | lia |].
      congruence.
    - eapply (randomLabel_error 60); [lia | exact L1]. }
  pose proof (randomLabel_entropy _ _ _ _ L1) as N1.
  apply randomLabel_shape in L1. destruct L1 as (_ & Hlen1 & _ & ->).
  destruct (randomLabel 63 _) as [[e2|l2] r2] eqn:L2.
  { intros [= <- <-]. split.
    - destruct (Nat.lt_ge_cases (List.length r) 123) as [H|H]; [exact H|].
      destruct (randomLabel_succeeds 63 (skipn (Z.to_nat 60) r)) as [s Hs];
        [lia | rewrite length_skipn; lia |].
      congruence.
    - eapply (randomLabel_error 63); [lia | exact L2]. }
  pose proof (randomLabel_entropy _ _ _ _ L2) as N2.
  apply randomLabel_shape in L2. destruct L2 as (_ & Hlen2 & _ & ->).
  rewrite length_skipn in N2.
  intros Hret. apply pair_equal_spec in Hret. destruct Hret as [<- <-].
  split; [lia|]. split; [rewrite skipn_skipn; reflexivity|].
  rewrite !str_length_app, Hlen1, Hlen2. reflexivity.
Qed.

(** The name generator asks for 123 bytes of entropy.  Given them it
    returns a name of 128 characters and consumes exactly those
    bytes; given fewer it fails with the error of the entropy source
    (it never fails with the label-length error). *)
Theorem RandomDomain128WithCOM_total (r : Entropy) :
  if (123 <=? List.length r)%nat then
    exists name,
      RandomDomain128WithCOM r = (inr name, skipn 123 r) /\
      String.length name = 128%nat
  else fst (RandomDomain128WithCOM r) = inl EntropyError.
Proof.
  pose proof (RandomDomain128WithCOM_run r) as Hrun.
  destruct (RandomDomain128WithCOM r) as [[e|name] r'] eqn:Hgen;
    specialize (Hrun _ _ eq_refl); cbv beta iota in Hrun.
  - destruct Hrun as [Hlt ->].
    destruct (Nat.leb_spec 123 (List.length r)); [lia | reflexivity].
  - destruct Hrun as (Hle & -> & Hlen).
    destruct (Nat.leb_spec 123 (List.length r)); [|lia].
    exists name. auto.
Qed.

Lemma get_In (s : string) (n : nat) (c : ascii) :
  String.get n s = Some c -> In c (list_ascii_of_string s).
Proof.
  revert n. induction s as [|x s IH]; intros [|n]; cbn; try discriminate.
  - intros [= ->]. auto.
  - intros H. right. eapply IH. exact H.
Qed.

Lemma get_Some (s : string) (n : nat) :
  (n < String.length s)%nat -> exists c, String.get n s = Some c.
Proof.
  revert n. induction s as [|x s IH]; intros [|n]; cbn; try lia; [eauto|].
  intros H. apply IH. lia.
Qed.

Lemma pick_In (charset : string) (b : ascii) :
  charset <> ""%string -> In (pick charset b) (list_ascii_of_string charset).
Proof.
  intros Hc. unfold pick.
  assert (nat_of_ascii b mod String.length charset < String.length charset)%nat
    as Hlt by (apply Nat.mod_upper_bound; destruct charset; cbn; congruence).
  destruct (get_Some _ _ Hlt) as [c Hg]. rewrite Hg. eapply get_In. exact Hg.
Qed.

(** Filling from a charset: an empty destination reads no entropy
    and cannot fail; otherwise one byte of entropy is read per byte of
    the destination, every byte stored is a character of the charset,
    and when the entropy source fails the destination is left as it
    was. *)
Theorem fillFromCharset_spec (dst : list ascii) (charset : string)
    (r : Entropy) :
  charset <> ""%string ->
  match dst with
  | [] => fillFromCharset dst charset r = (None, [], r)
  | _ :: _ =>
      if (List.length dst <=? List.length r)%nat then
        exists dst',
          fillFromCharset dst charset r
          = (None, dst', skipn (List.length dst) r) /\
          List.length dst' = List.length dst /\
          Forall (fun c => In c (list_ascii_of_string charset)) dst'
      else fillFromCharset dst charset r = (Some EntropyError, dst, r)
  end.
Proof.
  intros Hc. destruct dst as [|d dst]; [reflexivity|].
  unfold fillFromCharset, rand_Read.
  change (List.length (d :: dst) =? 0)%nat with false. cbv iota.
  destruct (List.length (d :: dst) <=? List.length r)%nat eqn:Hr;
    [|reflexivity].
  apply Nat.leb_le in Hr.
  eexists. split; [reflexivity|]. split.
  - rewrite length_map, length_firstn. lia.
  - apply Forall_forall. intros c Hin. apply in_map_iff in Hin.
    destruct Hin as (b & <- & _). apply pick_In. exact Hc.
Qed.

Lemma fillFromCharset_spec_witness :
  edge <> ""%string /\
  exists dst',
    fillFromCharset [zero; zero; zero] edge demo_entropy
    = (None, dst', skipn 3 demo_entropy) /\
    List.length dst' = 3%nat /\
    Forall (fun c => In c (list_ascii_of_string edge)) dst'.
Proof.
  assert (H : edge <> ""%string) by discriminate.
  split; [exact H|].
  exact (fillFromCharset_spec [zero; zero; zero] edge demo_entropy H).
Defined.

Lemma all_bytes_complete (b : ascii) : In b all_bytes.
Proof.
  unfold all_bytes. apply in_map_iff. exists (nat_of_ascii b). split.
  - apply ascii_nat_embedding.
  - apply in_seq. pose proof (nat_ascii_bounded b). lia.
Qed.

(** Drawing a character as [byte mod len(charset)] reaches every
    character of the alphabet but not equally often: of the 256 byte
    values, 8 give each of [a], [b], [c], [d] at the edge of a label
    and 7 each other character of [[a-z0-9]]; inside a label, 7 give
    each character but [8], [9] and [-], which 6 give.  No byte gives
    a character outside the alphabet. *)
Theorem pick_distribution (c : ascii) :
  In c all_bytes /\
  preimages edge c =
    (if Strings.has_byte "abcd" c then 8
     else if is_edge_char c then 7 else 0)%nat /\
  preimages mid c =
    (if Strings.has_byte "89-" c then 6
     else if is_mid_char c then 7 else 0)%nat.
Proof.
  split; [apply all_bytes_complete|].
  destruct c as [[] [] [] [] [] [] [] []]; vm_compute; split; reflexivity.
Qed.

(** ** The command: domains to probe, and colours of a comparison *)

Lemma collect_domains_filter (tf trf : string -> string)
    (pieces domains : list string) :
  Cmd.collect_domains tf trf pieces domains
  = (domains ++ filter (fun d => negb (d =? "")%string)
                       (map (Cmd.TrimSpace tf trf) pieces))%list.
Proof.
  revert domains. induction pieces as [|d pieces IH]; intros domains;
    cbn [Cmd.collect_domains map filter]; [now rewrite app_nil_r|].
  destruct (Cmd.TrimSpace tf trf d =? "")%string; cbn [negb]; rewrite IH;
    [reflexivity | now rewrite <- app_assoc].
Qed.

(** Whatever the flag holds, a list of domains the command settles on
    is not empty and holds no empty name; with a flag that is not
    blank, the names are the trimmed pieces between the commas, in
    order, and no entropy is used. *)
Theorem select_domains_nonempty (tf trf : string -> string)
    (latencyDomains : string) (r r' : Entropy) (domains : list string) :
  Cmd.select_domains tf trf latencyDomains r = (inr domains, r') ->
  domains <> [] /\
  Forall (fun d => d <> ""%string) domains /\
  (Cmd.TrimSpace tf trf latencyDomains <> ""%string ->
   r' = r /\
   domains = filter (fun d => negb (d =? "")%string)
                    (map (Cmd.TrimSpace tf trf)
                         (Cmd.Split latencyDomains ","))).
Proof.
  unfold Cmd.select_domains.
  destruct (String.eqb_spec (Cmd.TrimSpace tf trf latencyDomains) "")
    as [Hblank|Hflag]; cbn [negb].
  - destruct (RandomDomain128WithCOM r) as [[e|name] r1] eqn:Hgen;
      [discriminate|].
    intros [= <- <-]. split; [discriminate|]. split; [|congruence].
    repeat constructor; try discriminate.
    unfold RandomDomain128WithCOM in Hgen.
    destruct (randomLabel 60 r) as [[e1|l1] r2]; [discriminate|].
    destruct (randomLabel 63 r2) as [[e2|l2] r3]; [discriminate|].
    injection Hgen as Hg _. intros ->. destruct l1; discriminate.
  - rewrite collect_domains_filter. cbn [app].
    destruct (List.length _ =? 0)%nat eqn:Hlen; [discriminate|].
    intros [= <- <-]. apply Nat.eqb_neq in Hlen.
    split; [intros H0; rewrite H0 in Hlen; cbn in Hlen; lia|].
    split; [|auto].
    apply Forall_forall. intros d Hd. apply filter_In in Hd.
    destruct Hd as [_ Hd]. apply negb_true_iff in Hd.
    apply String.eqb_neq. exact Hd.
Qed.

Lemma select_domains_nonempty_witness :
  Cmd.select_domains Cmd.no_unicode_trim Cmd.no_unicode_trim
    " google.com, ,example.org ,," demo_entropy
  = (inr ["google.com"; "example.org"]%string, demo_entropy) /\
  ["google.com"; "example.org"]%string <> [] /\
  Forall (fun d => d <> ""%string) ["google.com"; "example.org"]%string.
Proof.
  assert (H : Cmd.select_domains Cmd.no_unicode_trim Cmd.no_unicode_trim
                " google.com, ,example.org ,," demo_entropy
              = (inr ["google.com"; "example.org"]%string, demo_entropy))
    by (vm_compute; reflexivity).
  split; [exact H|].
  pose proof (select_domains_nonempty _ _ _ _ _ _ H) as (H1 & H2 & _).
  split; [exact H1 | exact H2].
Defined.

(** With a blank flag the command probes two fixed names and one
    random name of 128 characters, for 123 bytes of entropy; when the
    entropy source fails, so does the command. *)
Theorem select_domains_default (tf trf : string -> string)
    (latencyDomains : string) (r : Entropy) :
  Cmd.TrimSpace tf trf latencyDomains = ""%string ->
  if (123 <=? List.length r)%nat then
    exists random128,
      Cmd.select_domains tf trf latencyDomains r
      = (inr ["google.com"; "earentir.dev"; random128]%string, skipn 123 r) /\
      String.length random128 = 128%nat
  else
    fst (Cmd.select_domains tf trf latencyDomains r)
    = inl (Cmd.GeneratorError EntropyError).
Proof.
  intros Hblank. unfold Cmd.select_domains. rewrite Hblank.
  cbn [String.eqb negb].
  pose proof (RandomDomain128WithCOM_run r) as Hrun.
  destruct (RandomDomain128WithCOM r) as [[e|name] r'] eqn:Hgen;
    specialize (Hrun _ _ eq_refl); cbv beta iota in Hrun.
  - destruct Hrun as [Hlt ->].
    destruct (Nat.leb_spec 123 (List.length r)); [lia | reflexivity].
  - destruct Hrun as (Hle & -> & Hlen).
    destruct (Nat.leb_spec 123 (List.length r)); [|lia].
    exists name. auto.
Qed.

Lemma select_domains_default_witness :
  Cmd.TrimSpace Cmd.no_unicode_trim Cmd.no_unicode_trim "  " = ""%string /\
  exists random128,
    Cmd.select_domains Cmd.no_unicode_trim Cmd.no_unicode_trim "  "
                       demo_entropy
    = (inr ["google.com"; "earentir.dev"; random128]%string,
       skipn 123 demo_entropy) /\
    String.length random128 = 128%nat.
Proof.
  assert (H : Cmd.TrimSpace Cmd.no_unicode_trim Cmd.no_unicode_trim "  "
              = ""%string) by reflexivity.
  split; [exact H|].
  exact (select_domains_default Cmd.no_unicode_trim Cmd.no_unicode_trim
           "  " demo_entropy H).
Defined.

Lemma bytes_app (a b : string) :
  list_ascii_of_string (a ++ b)
  = (list_ascii_of_string a ++ list_ascii_of_string b)%list.
Proof. induction a; cbn; congruence. Qed.

(** The first loop of [TrimSpace] on ASCII: it drops the leading
    spaces. *)
Lemma trim_start_ascii (tf : string -> string) (s : string) :
  Cmd.ascii_only s = true ->
  exists sp t,
    Cmd.trim_start tf s = inr t /\
    s = (sp ++ t)%string /\
    Cmd.all_bytes_in Cmd.asciiSpace sp = true /\
    match t with
    | EmptyString => True
    | String c _ => Cmd.asciiSpace c = false
    end.
Proof.
  unfold Cmd.ascii_only, Cmd.all_bytes_in.
  induction s as [|c s IH]; cbn [list_ascii_of_string forallb Cmd.trim_start].
  - intros _. exists EmptyString, EmptyString. cbn. auto.
  - intros H. apply andb_true_iff in H. destruct H as [Hc Hs].
    apply negb_true_iff in Hc. rewrite Hc.
    destruct (Cmd.asciiSpace c) eqn:Hsp.
    + destruct (IH Hs) as (sp & t & Ht & -> & Hsp' & Hhd).
      exists (String c sp), t. cbn [append list_ascii_of_string forallb].
      rewrite Hsp, Hsp'. auto.
    + exists EmptyString, (String c s). cbn. auto.
Qed.

(** The second loop on ASCII: it drops the trailing spaces. *)
Lemma trim_stop_ascii (trf : string -> string) (l : list ascii) :
  forallb (fun c => negb (Cmd.non_ascii c)) l = true ->
  exists sp k,
    Cmd.trim_stop trf l = inr k /\
    l = (sp ++ k)%list /\
    forallb Cmd.asciiSpace sp = true /\
    match k with
    | [] => True
    | c :: _ => Cmd.asciiSpace c = false
    end.
Proof.
  induction l as [|c l IH]; cbn [forallb Cmd.trim_stop].
  - intros _. exists [], []. cbn. auto.
  - intros H. apply andb_true_iff in H. destruct H as [Hc Hl].
    apply negb_true_iff in Hc. rewrite Hc.
    destruct (Cmd.asciiSpace c) eqn:Hsp.
    + destruct (IH Hl) as (sp & k & Hk & -> & Hsp' & Hhd).
      exists (c :: sp), k. cbn [app forallb]. rewrite Hsp, Hsp'. auto.
    + exists [], (c :: l). cbn. auto.
Qed.

(** [TrimSpace] on ASCII: the string is spaces, the result, spaces;
    the result neither starts nor ends with a space. *)
Lemma TrimSpace_ascii (tf trf : string -> string) (s : string) :
  Cmd.ascii_only s = true ->
  exists sp1 m sp2,
    list_ascii_of_string s = (sp1 ++ m ++ sp2)%list /\
    Cmd.TrimSpace tf trf s = string_of_list_ascii m /\
    forallb Cmd.asciiSpace sp1 = true /\
    forallb Cmd.asciiSpace sp2 = true /\
    match m with
    | [] => True
    | c :: rest => Cmd.asciiSpace c = false /\
                   Cmd.asciiSpace (last rest c) = false
    end.
Proof.
  intros Ha. destruct (trim_start_ascii tf s Ha) as (sp & t & Ht & Hs & Hsp & Hhd).
  unfold Cmd.TrimSpace. rewrite Ht.
  assert (forallb (fun c => negb (Cmd.non_ascii c))
                  (rev (list_ascii_of_string t)) = true) as Hat.
  { unfold Cmd.ascii_only in Ha. rewrite Hs, bytes_app, forallb_app in Ha.
    apply andb_true_iff in Ha. destruct Ha as [_ Ha].
    rewrite forallb_forall in Ha |- *. intros c Hc. apply Ha.
    apply in_rev. exact Hc. }
  destruct (trim_stop_ascii trf _ Hat) as (sp2 & k & Hk & Hrev & Hsp2 & Hk0).
  rewrite Hk.
  assert (list_ascii_of_string t = (rev k ++ rev sp2)%list) as Hbt.
  { rewrite <- (rev_involutive (list_ascii_of_string t)), Hrev, rev_app_distr.
    reflexivity. }
  exists (list_ascii_of_string sp), (rev k), (rev sp2).
  split; [rewrite Hs, bytes_app, Hbt; reflexivity|].
  split; [reflexivity|]. split; [exact Hsp|].
  split; [rewrite forallb_forall in Hsp2 |- *; intros c Hc; apply Hsp2;
          apply in_rev; exact Hc|].
  destruct k as [|c k]; [exact I|].
  cbn [rev] in *.
  destruct (rev k ++ [c])%list as [|x rest] eqn:Hm;
    [destruct (rev k); discriminate|].
  split.
  - destruct t as [|y t']; [cbn in Hbt; discriminate|].
    cbn [list_ascii_of_string app] in Hbt. injection Hbt as -> _. exact Hhd.
  - assert (last rest x = c) as ->; [|exact Hk0].
    destruct (rev k) as [|z zs]; cbn [app] in Hm.
    + injection Hm as <- <-. reflexivity.
    + injection Hm as <- <-. apply last_last.
Qed.

Lemma TrimSpace_ascii_blank (tf trf : string -> string) (s : string) :
  Cmd.ascii_only s = true ->
  (Cmd.TrimSpace tf trf s = ""%string <->
   Cmd.all_bytes_in Cmd.asciiSpace s = true).
Proof.
  intros Ha.
  destruct (TrimSpace_ascii tf trf s Ha) as (sp1 & m & sp2 & Hs & -> & H1 & H2 & Hm).
  unfold Cmd.all_bytes_in. rewrite Hs, !forallb_app, H1, H2.
  destruct m as [|c m]; cbn [string_of_list_ascii forallb andb].
  - tauto.
  - destruct Hm as [Hc _]. rewrite Hc. cbn. split; discriminate.
Qed.

Lemma TrimSpace_ascii_trimmed (tf trf : string -> string) (s : string) :
  Cmd.ascii_only s = true ->
  Cmd.trimmed (Cmd.TrimSpace tf trf s) = true /\
  forall c, In c (list_ascii_of_string (Cmd.TrimSpace tf trf s)) ->
            In c (list_ascii_of_string s).
Proof.
  intros Ha.
  destruct (TrimSpace_ascii tf trf s Ha) as (sp1 & m & sp2 & Hs & -> & _ & _ & Hm).
  unfold Cmd.trimmed. rewrite list_ascii_of_string_of_list_ascii, Hs. split.
  - destruct m as [|c m]; [reflexivity|]. destruct Hm as [-> ->]. reflexivity.
  - intros c Hc. apply in_or_app. right. apply in_or_app. left. exact Hc.
Qed.

Lemma Split_not_nil (s : string) (sep : ascii) : Cmd.Split s sep <> [].
Proof.
  destruct s as [|c s]; cbn [Cmd.Split]; [discriminate|].
  destruct (Ascii.eqb c sep); [discriminate|].
  destruct (Cmd.Split s sep); discriminate.
Qed.

(** The pieces of a split hold the bytes of the string that are not
    the separator, and only them. *)
Lemma Split_bytes (s : string) (sep c : ascii) :
  (exists piece, In piece (Cmd.Split s sep) /\
                 In c (list_ascii_of_string piece)) <->
  In c (list_ascii_of_string s) /\ c <> sep.
Proof.
  induction s as [|x s IH]; cbn [Cmd.Split list_ascii_of_string].
  - split.
    + intros (piece & [<-|[]] & []).
    + intros [[] _].
  - destruct (Ascii.eqb_spec x sep) as [->|Hx].
    + split.
      * intros (piece & [<-|Hin] & Hc); [destruct Hc|].
        destruct (proj1 IH (ex_intro _ piece (conj Hin Hc))) as [H1 H2].
        split; [right; exact H1 | exact H2].
      * intros [[<-|Hin] Hne]; [congruence|].
        destruct (proj2 IH (conj Hin Hne)) as (piece & Hp & Hc).
        exists piece. split; [right; exact Hp | exact Hc].
    + pose proof (Split_not_nil s sep) as Hnn.
      destruct (Cmd.Split s sep) as [|p rest]; [congruence|].
      split.
      * intros (piece & [<-|Hin] & Hc).
        -- cbn [list_ascii_of_string] in Hc. destruct Hc as [<-|Hc].
           ++ split; [left; reflexivity | exact Hx].
           ++ destruct (proj1 IH (ex_intro _ p (conj (or_introl eq_refl) Hc)))
                as [H1 H2].
              split; [right; exact H1 | exact H2].
        -- destruct (proj1 IH (ex_intro _ piece (conj (or_intror Hin) Hc)))
             as [H1 H2].
           split; [right; exact H1 | exact H2].
      * intros [[<-|Hin] Hne].
        -- exists (String x p). split; [left; reflexivity|].
           cbn. left. reflexivity.
        -- destruct (proj2 IH (conj Hin Hne)) as (piece & [<-|Hp] & Hc).
           ++ exists (String x p). split; [left; reflexivity|].
              cbn. right. exact Hc.
           ++ exists piece. split; [right; exact Hp | exact Hc].
Qed.

Lemma has_byte_In (s : string) (c : ascii) :
  Strings.has_byte s c = true <-> In c (list_ascii_of_string s).
Proof.
  induction s as [|x s IH]; [unfold Strings.has_byte; cbn; split;
                             [discriminate | tauto]|].
  rewrite has_byte_cons, orb_true_iff, IH. cbn [list_ascii_of_string In].
  split; (intros [H|H]; [left|right; exact H]).
  - apply Ascii.eqb_eq. exact H.
  - apply Ascii.eqb_eq. exact H.
Qed.

Lemma piece_facts (s piece : string) :
  Cmd.ascii_only s = true ->
  In piece (Cmd.Split s ",") ->
  Cmd.ascii_only piece = true /\
  Strings.has_byte piece "," = false /\
  (Cmd.all_bytes_in Cmd.space_or_comma s = true ->
   Cmd.all_bytes_in Cmd.asciiSpace piece = true).
Proof.
  intros Ha Hp.
  assert (forall c, In c (list_ascii_of_string piece) ->
                    In c (list_ascii_of_string s) /\ c <> ","%char) as Hb
    by (intros c Hc; apply (proj1 (Split_bytes s "," c)); eauto).
  unfold Cmd.ascii_only, Cmd.all_bytes_in in *. repeat split.
  - rewrite forallb_forall in Ha |- *. intros c Hc. apply Ha, Hb, Hc.
  - destruct (Strings.has_byte piece ",") eqn:E; [|reflexivity].
    apply has_byte_In in E. destruct (Hb _ E) as [_ Hne]. congruence.
  - intros Hs. rewrite forallb_forall in Hs |- *. intros c Hc.
    destruct (Hb c Hc) as [Hin Hne]. specialize (Hs c Hin).
    unfold Cmd.space_or_comma in Hs. apply orb_true_iff in Hs.
    destruct Hs as [Hs|Hs]; [exact Hs|].
    apply Ascii.eqb_eq in Hs. congruence.
Qed.

(** For a flag of ASCII bytes: it counts as blank exactly when it is
    all spaces; when it holds nothing but spaces and commas, and a
    comma, the command fails for want of a domain; otherwise it
    settles on at least one domain, and each domain is a name without
    comma that neither starts nor ends with a space. *)
Theorem select_domains_ascii (tf trf : string -> string)
    (latencyDomains : string) (r : Entropy) :
  Cmd.ascii_only latencyDomains = true ->
  (Cmd.TrimSpace tf trf latencyDomains = ""%string <->
   Cmd.all_bytes_in Cmd.asciiSpace latencyDomains = true) /\
  (Cmd.all_bytes_in Cmd.asciiSpace latencyDomains = false ->
   if Cmd.all_bytes_in Cmd.space_or_comma latencyDomains then
     Cmd.select_domains tf trf latencyDomains r
     = (inl Cmd.NoValidDomains, r)
   else
     exists domains,
       Cmd.select_domains tf trf latencyDomains r = (inr domains, r) /\
       domains <> [] /\
       Forall (fun d => d <> ""%string /\
                        Cmd.trimmed d = true /\
                        Strings.has_byte d "," = false) domains).
Proof.
  intros Ha. split; [apply TrimSpace_ascii_blank; exact Ha|].
  intros Hns.
  assert (Cmd.TrimSpace tf trf latencyDomains <> ""%string) as Hflag.
  { intros H. apply (TrimSpace_ascii_blank tf trf _ Ha) in H. congruence. }
  unfold Cmd.select_domains.
  destruct (String.eqb_spec (Cmd.TrimSpace tf trf latencyDomains) "");
    [contradiction|]. cbn [negb].
  rewrite collect_domains_filter. cbn [app].
  set (ds := filter _ _).
  destruct (Cmd.all_bytes_in Cmd.space_or_comma latencyDomains) eqn:Hsc.
  - assert (ds = []) as ->; [|reflexivity].
    subst ds. destruct (filter _ _) as [|d rest] eqn:Hf; [reflexivity|].
    assert (In d (d :: rest)) as Hin by (left; reflexivity).
    rewrite <- Hf in Hin. apply filter_In in Hin. destruct Hin as [Hin Hne].
    apply in_map_iff in Hin. destruct Hin as (piece & <- & Hp).
    destruct (piece_facts _ _ Ha Hp) as (Hpa & _ & Hsp).
    apply (TrimSpace_ascii_blank tf trf _ Hpa) in Hsp; [|exact Hsc].
    rewrite Hsp in Hne. discriminate.
  - assert (exists c, In c (list_ascii_of_string latencyDomains) /\
                      Cmd.space_or_comma c = false) as (c & Hc & Hcs).
    { unfold Cmd.all_bytes_in in Hsc. clear -Hsc.
      induction (list_ascii_of_string latencyDomains) as [|x l IH];
        cbn [forallb] in Hsc; [discriminate|].
      destruct (Cmd.space_or_comma x) eqn:E.
      - destruct (IH Hsc) as (c & Hc & Hcs). exists c. split; [right|]; auto.
      - exists x. split; [left; reflexivity | exact E]. }
    unfold Cmd.space_or_comma in Hcs. apply orb_false_iff in Hcs.
    destruct Hcs as [Hcsp Hcc]. apply Ascii.eqb_neq in Hcc.
    destruct (proj2 (Split_bytes latencyDomains "," c) (conj Hc Hcc))
      as (piece & Hp & Hcp).
    destruct (piece_facts _ _ Ha Hp) as (Hpa & _ & _).
    assert (In (Cmd.TrimSpace tf trf piece) ds) as Hin.
    { subst ds. apply filter_In. split; [apply in_map; exact Hp|].
      apply negb_true_iff, String.eqb_neq. intros Hblank.
      apply (TrimSpace_ascii_blank tf trf _ Hpa) in Hblank.
      unfold Cmd.all_bytes_in in Hblank. rewrite forallb_forall in Hblank.
      rewrite (Hblank c Hcp) in Hcsp. discriminate. }
    destruct (List.length ds =? 0)%nat eqn:Hlen.
    { apply Nat.eqb_eq in Hlen. destruct ds; [destruct Hin | discriminate]. }
    exists ds. split; [reflexivity|].
    split; [intros H0; rewrite H0 in Hin; destruct Hin|].
    apply Forall_forall. intros d Hd. subst ds. apply filter_In in Hd.
    destruct Hd as [Hd Hne]. apply in_map_iff in Hd.
    destruct Hd as (p & <- & Hpin).
    destruct (piece_facts _ _ Ha Hpin) as (Hpa' & Hpc & _).
    destruct (TrimSpace_ascii_trimmed tf trf p Hpa') as [Htr Hsub].
    split; [apply String.eqb_neq, negb_true_iff; exact Hne|].
    split; [exact Htr|].
    destruct (Strings.has_byte (Cmd.TrimSpace tf trf p) ",") eqn:E;
      [|reflexivity].
    apply has_byte_In in E. apply Hsub in E. apply has_byte_In in E.
    congruence.
Qed.

Lemma select_domains_ascii_witness :
  Cmd.ascii_only " , ," = true /\
  Cmd.all_bytes_in Cmd.asciiSpace " , ," = false /\
  Cmd.select_domains Cmd.no_unicode_trim Cmd.no_unicode_trim " , ,"
                     demo_entropy
  = (inl Cmd.NoValidDomains, demo_entropy).
Proof.
  assert (H1 : Cmd.ascii_only " , ," = true) by reflexivity.
  assert (H2 : Cmd.all_bytes_in Cmd.asciiSpace " , ," = false) by reflexivity.
  split; [exact H1|]. split; [exact H2|].
  exact (proj2 (select_domains_ascii Cmd.no_unicode_trim Cmd.no_unicode_trim
                  " , ," demo_entropy H1) H2).
Defined.

(** The comparison colours the lower of two durations green and the
    higher red, and two equal durations gray; swapping the durations
    swaps the cells. *)
Theorem colorPairLowerBetter_swap (a b : Z) :
  Cmd.colorPairLowerBetter b a
  = (snd (Cmd.colorPairLowerBetter a b), fst (Cmd.colorPairLowerBetter a b)) /\
  (fst (fst (Cmd.colorPairLowerBetter a b)) = Cmd.Green <-> a < b) /\
  (fst (snd (Cmd.colorPairLowerBetter a b)) = Cmd.Green <-> b < a) /\
  (fst (fst (Cmd.colorPairLowerBetter a b)) = Cmd.Gray12 <-> a = b) /\
  snd (fst (Cmd.colorPairLowerBetter a b)) = a /\
  snd (snd (Cmd.colorPairLowerBetter a b)) = b.
Proof.
  unfold Cmd.colorPairLowerBetter.
  destruct (Z.eqb_spec a b) as [->|Hne].
  - rewrite Z.eqb_refl. cbn. repeat split; try discriminate; try lia.
  - destruct (Z.eqb_spec b a) as [->|_]; [congruence|].
    destruct (Z.ltb_spec a b), (Z.ltb_spec b a); cbn; try lia;
      repeat split; try discriminate; try lia; try congruence.
Qed.
